(** * Verification of [filter_plugins/config_comparison.py]

    A shallow embedding of the Ansible filter plugin [FilterModule] (section
    extraction, normalization and baseline comparison of network device
    configurations) and the proofs of its specified properties.

    Layout: the Python primitives the plugin relies on ([Py]), the fragment of
    the [re] module it uses ([Re]), the plugin itself ([FilterModule]), then
    the lemmas. *)

From Stdlib Require Import Ascii String DecimalString.
From Stdlib Require Import List Bool Arith NArith ZArith Lia.
Import ListNotations.
Local Open Scope list_scope.

Set Implicit Arguments.

(* ================================================================== *)
(** ** Python primitives *)
(* ================================================================== *)

Module Py.

(** A Python [str] is a sequence of Unicode code points.  Code points are
    kept as [N]; nothing below depends on the upper bound 0x10FFFF. *)
Definition char := N.
Definition str := list char.

(** String literals of the source, written as Rocq strings. *)
Definition lit (s : string) : str :=
  List.map N_of_ascii (list_ascii_of_string s).

Definition nl : char := 10%N.

Definition str_eqb (a b : str) : bool :=
  if list_eq_dec N.eq_dec a b then true else false.

(** Truthiness of a sequence: [if xs] / [if not xs]. *)
Definition truthy {A} (xs : list A) : bool :=
  match xs with [] => false | _ :: _ => true end.

(** [str.isspace] on one code point (CPython's [_PyUnicode_IsWhitespace]);
    this is the set [str.strip()] and [str.split()] work with. *)
Definition is_space (c : char) : bool :=
  ((9 <=? c) && (c <=? 13) || (28 <=? c) && (c <=? 32)
   || (c =? 133) || (c =? 160) || (c =? 5760)
   || (8192 <=? c) && (c <=? 8202)
   || (c =? 8232) || (c =? 8233) || (c =? 8239) || (c =? 8287)
   || (c =? 12288))%N.

Fixpoint lstrip (s : str) : str :=
  match s with
  | [] => []
  | c :: t => if is_space c then lstrip t else s
  end.

Definition rstrip (s : str) : str := rev (lstrip (rev s)).

(** [s.strip()] *)
Definition strip (s : str) : str := rstrip (lstrip s).

(** [s.startswith(p)] *)
Fixpoint startswith (s p : str) : bool :=
  match p, s with
  | [], _ => true
  | _ :: _, [] => false
  | a :: p', c :: s' => (N.eqb a c) && startswith s' p'
  end.

(** [s.split(sep)] for a one-character separator: never returns an empty
    list, keeps empty pieces. *)
Fixpoint split_on (sep : char) (s : str) : list str :=
  match s with
  | [] => [[]]
  | c :: t =>
      if N.eqb c sep then [] :: split_on sep t
      else match split_on sep t with
           | h :: r => (c :: h) :: r
           | [] => [[c]]
           end
  end.

(** [s.split()] without argument: pieces between runs of whitespace, no
    empty piece.  [cur] is the token being read. *)
Fixpoint split_ws_from (cur : str) (s : str) : list str :=
  match s with
  | [] => if truthy cur then [cur] else []
  | c :: t =>
      if is_space c
      then (if truthy cur then cur :: split_ws_from [] t
            else split_ws_from [] t)
      else split_ws_from (cur ++ [c]) t
  end.

Definition split_ws (s : str) : list str := split_ws_from [] s.

(** [sep.join(parts)] *)
Fixpoint join (sep : str) (parts : list str) : str :=
  match parts with
  | [] => []
  | [x] => x
  | x :: rest => x ++ sep ++ join sep rest
  end.

(** [str(n)] / [f"{n}"] for a non-negative [int]. *)
Definition str_of_nat (n : nat) : str :=
  lit (NilEmpty.string_of_uint (Nat.to_uint n)).

(** The values a configuration line can be.  The plugin is fed from Jinja2:
    lines produced by [normalize_config] are strings, lines of a baseline
    loaded from YAML may also be integers or null. *)
Inductive value :=
| VStr (s : str)
| VInt (n : Z)
| VNone.

Definition value_eqb (a b : value) : bool :=
  match a, b with
  | VStr s, VStr t => str_eqb s t
  | VInt n, VInt m => Z.eqb n m
  | VNone, VNone => true
  | _, _ => false
  end.

(** [x in xs] on a list: some element is [==] to [x]. *)
Definition py_in (x : value) (xs : list value) : bool :=
  existsb (value_eqb x) xs.

(** Exceptions and fallible computations. *)
Inductive exn := AttributeError | IndexError.

Inductive result (A : Type) :=
| Ok (a : A)
| Raise (e : exn).
Arguments Ok {A} a.
Arguments Raise {A} e.

Definition bind {A B} (m : result A) (k : A -> result B) : result B :=
  match m with
  | Ok a => k a
  | Raise e => Raise e
  end.

Notation "x <- m ;; k" := (bind m (fun x => k))
  (at level 61, m at next level, right associativity).

(** [try: body  except: return handler] with a bare [except]. *)
Definition try_except {A} (body : result A) (handler : A) : A :=
  match body with
  | Ok a => a
  | Raise _ => handler
  end.

(** [v.split()]: only [str] has the method. *)
Definition method_split (v : value) : result (list str) :=
  match v with
  | VStr s => Ok (split_ws s)
  | _ => Raise AttributeError
  end.

(** [xs[0]] *)
Definition item0 (xs : list str) : result str :=
  match xs with
  | x :: _ => Ok x
  | [] => Raise IndexError
  end.

End Py.

Import Py.

(* ================================================================== *)
(** ** The fragment of the [re] module the plugin uses *)
(* ================================================================== *)

Module Re.

(** What matches one character: [.] under [re.DOTALL] (every character,
    newline included), a literal character, a range [[lo-hi]]. *)
Inductive cset :=
| CAny
| CChr (c : char)
| CRng (lo hi : char).

Definition cset_mem (cs : cset) (c : char) : bool :=
  match cs with
  | CAny => true
  | CChr a => N.eqb a c
  | CRng lo hi => (N.leb lo c) && (N.leb c hi)
  end.

(** The patterns of the tables are built from literal text, one-character
    sets, [\Z], concatenation, alternation, the greedy and lazy star of a
    one-character set and the lookahead [(?=...)].  The tables use neither
    [^] nor [$], so [re.MULTILINE] changes nothing. *)
Inductive regex :=
| Lit (p : str)
| One (cs : cset)
| EndZ
| Seq (r1 r2 : regex)
| Alt (r1 r2 : regex)
| Star (greedy : bool) (cs : cset)
| Look (r : regex).

Fixpoint strip_prefix (p s : str) : option str :=
  match p, s with
  | [], _ => Some s
  | _ :: _, [] => None
  | a :: p', c :: s' => if N.eqb a c then strip_prefix p' s' else None
  end.

(** The iteration of a star on the text [s], [k] being what follows the star
    in the pattern: a greedy star takes a further character before it tries
    [k], a lazy one tries [k] first. *)
Fixpoint star_loop (greedy : bool) (cs : cset) (k : str -> option str)
    (s : str) : option str :=
  match s with
  | c :: s' =>
      if cset_mem cs c
      then if greedy
           then match star_loop greedy cs k s' with
                | Some e => Some e
                | None => k s
                end
           else match k s with
                | Some e => Some e
                | None => star_loop greedy cs k s'
                end
      else k s
  | [] => k s
  end.

(** Backtracking matcher: [run r s k] matches [r] at the start of [s] and
    hands the rest of the text to the continuation [k]; the first success, in
    the engine's order of preference, is the result (the text left over). *)
Fixpoint run (r : regex) (s : str) (k : str -> option str) : option str :=
  match r with
  | Lit p =>
      match strip_prefix p s with
      | Some s' => k s'
      | None => None
      end
  | One cs =>
      match s with
      | c :: s' => if cset_mem cs c then k s' else None
      | [] => None
      end
  | EndZ =>
      match s with
      | [] => k s
      | _ :: _ => None
      end
  | Seq r1 r2 => run r1 s (fun s' => run r2 s' k)
  | Alt r1 r2 =>
      match run r1 s k with
      | Some e => Some e
      | None => run r2 s k
      end
  | Star greedy cs => star_loop greedy cs k s
  | Look r1 =>
      match run r1 s (fun s' => Some s') with
      | Some _ => k s
      | None => None
      end
  end.

(** The text matched at the start of [s], if any. *)
Definition match_here (r : regex) (s : str) : option str :=
  match run r s (fun s' => Some s') with
  | Some rest => Some (firstn (length s - length rest) s)
  | None => None
  end.

(** [re.findall] for a pattern without groups: the matched texts, leftmost
    first, not overlapping.  [skip] counts the characters of the last match
    still to step over.  After an empty match the scan moves on by one
    character; no pattern of the tables matches the empty text. *)
Fixpoint findall_from (r : regex) (skip : nat) (s : str) : list str :=
  match skip with
  | S n =>
      match s with
      | [] => []
      | _ :: t => findall_from r n t
      end
  | O =>
      match match_here r s with
      | Some m =>
          m :: match s with
               | [] => []
               | _ :: t => findall_from r (pred (length m)) t
               end
      | None =>
          match s with
          | [] => []
          | _ :: t => findall_from r 0 t
          end
      end
  end.

Definition findall (pattern : regex) (text : str) : list str :=
  findall_from pattern 0 text.

(** Pattern syntax: [kw .* ] and [kw .*? (?= a1 | a2 | a3)]. *)
Definition a_z : regex := One (CRng 97%N 122%N).
Definition nl_then (r : regex) : regex := Seq (One (CChr nl)) r.
Definition greedy_tail (kw : string) : regex :=
  Seq (Lit (lit kw)) (Star true CAny).
Definition lazy_until (kw : string) (a1 a2 a3 : regex) : regex :=
  Seq (Lit (lit kw)) (Seq (Star false CAny) (Look (Alt a1 (Alt a2 a3)))).

End Re.

Import Re.

(* ================================================================== *)
(** ** The plugin *)
(* ================================================================== *)

Module FilterModule.

(** One entry of [different_configs]: [{'baseline': ..., 'running': ...}]. *)
Record diff_entry := {
  baseline : value;
  running : value
}.

(** The dictionary [compare_with_baseline] returns. *)
Record diff_result := {
  has_differences : bool;
  missing_configs : list value;
  extra_configs : list value;
  different_configs : list diff_entry;
  summary : str
}.

(** The loop shared by the three extraction functions:
    [for pattern in patterns: matches = re.findall(...); if matches:
    extracted.extend(matches)]. *)
Definition extract_step (config : str) (extracted : list str)
    (pattern : regex) : list str :=
  let matches := findall pattern config in
  if truthy matches then extracted ++ matches else extracted.

(** The pattern tables, in the order of the source.  [greedy_tail kw] is
    the source pattern [kw.*]; [lazy_until kw a1 a2 a3] is
    [kw.*?(?=a1|a2|a3)], the alternatives being [\nline], [\n[a-z]], [\n!],
    [\n#], [\nuser-interface] and [\Z]. *)
Definition cisco_patterns : list regex :=
  [ greedy_tail "service password-encryption";
    lazy_until "banner login" (nl_then a_z) (nl_then (Lit (lit "!"))) EndZ;
    lazy_until "line con 0" (nl_then (Lit (lit "line"))) (nl_then a_z) EndZ;
    lazy_until "line vty" (nl_then (Lit (lit "line"))) (nl_then a_z) EndZ;
    greedy_tail "snmp-server community";
    greedy_tail "tacacs-server host" ].

Definition h3c_patterns : list regex :=
  [ lazy_until "header login" (nl_then a_z) (nl_then (Lit (lit "#"))) EndZ;
    lazy_until "line aux" (nl_then (Lit (lit "line"))) (nl_then a_z) EndZ;
    lazy_until "line vty" (nl_then (Lit (lit "line"))) (nl_then a_z) EndZ;
    greedy_tail "hwtacacs scheme";
    greedy_tail "snmp-agent community" ].

Definition huawei_patterns : list regex :=
  [ lazy_until "user-interface console"
      (nl_then (Lit (lit "user-interface"))) (nl_then a_z) EndZ;
    lazy_until "user-interface vty"
      (nl_then (Lit (lit "user-interface"))) (nl_then a_z) EndZ;
    greedy_tail "hwtacacs-server";
    greedy_tail "snmp-agent community" ].

Definition _extract_cisco_sections (config : str) : str :=
  if negb (truthy config) then lit ""
  else
    let patterns := cisco_patterns in
    let extracted := fold_left (extract_step config) patterns [] in
    join [nl] extracted.

Definition _extract_h3c_sections (config : str) : str :=
  if negb (truthy config) then lit ""
  else
    let patterns := h3c_patterns in
    let extracted := fold_left (extract_step config) patterns [] in
    join [nl] extracted.

Definition _extract_huawei_sections (config : str) : str :=
  if negb (truthy config) then lit ""
  else
    let patterns := huawei_patterns in
    let extracted := fold_left (extract_step config) patterns [] in
    join [nl] extracted.

Definition extract_config_sections (running_config : str) (network_os : str)
  : str :=
  if existsb (str_eqb network_os) [lit "ios"; lit "nxos"; lit "eos"]
  then _extract_cisco_sections running_config
  else if str_eqb network_os (lit "comware")
  then _extract_h3c_sections running_config
  else if str_eqb network_os (lit "ce")
  then _extract_huawei_sections running_config
  else running_config.

(** [normalize_config]: the loop body, on the list [lines] built so far. *)
Definition normalize_step (lines : list str) (line : str) : list str :=
  let line := strip line in
  if truthy line && negb (startswith line (lit "!"))
                 && negb (startswith line (lit "#"))
  then lines ++ [line]
  else lines.

Definition normalize_config (config : str) (network_os : str) : list str :=
  if negb (truthy config) then []
  else fold_left normalize_step (split_on nl config) [].

(** The body of the [try] block of [_is_similar_config]. *)
Definition _is_similar_config_try (baseline_line running_line : value)
    (network_os : str) : result bool :=
  c1 <- method_split baseline_line ;;
  baseline_first <-
    (if truthy c1
     then (t <- method_split baseline_line ;; item0 t)
     else Ok (lit "")) ;;
  c2 <- method_split running_line ;;
  running_first <-
    (if truthy c2
     then (t <- method_split running_line ;; item0 t)
     else Ok (lit "")) ;;
  Ok (str_eqb baseline_first running_first).

Definition _is_similar_config (baseline_line running_line : value)
    (network_os : str) : bool :=
  try_except (_is_similar_config_try baseline_line running_line network_os)
             false.

Definition _generate_summary {A B C} (missing : list A) (extra : list B)
    (different : list C) : str :=
  let summary_parts := [] in
  let summary_parts :=
    if truthy missing
    then summary_parts ++
         [lit "Missing " ++ str_of_nat (length missing)
            ++ lit " baseline configuration(s)"]
    else summary_parts in
  let summary_parts :=
    if truthy different
    then summary_parts ++
         [lit "Found " ++ str_of_nat (length different)
            ++ lit " configuration difference(s)"]
    else summary_parts in
  if negb (truthy summary_parts) then lit "Configuration matches baseline"
  else join (lit "; ") summary_parts.

(** The inner [for running_line in running_config_lines] loop, with its
    [break]: returns [partial_match] and the updated [different_configs]. *)
Fixpoint scan_running (baseline_line : value) (running_config_lines : list value)
    (network_os : str) (different_configs : list diff_entry)
  : bool * list diff_entry :=
  match running_config_lines with
  | [] => (false, different_configs)
  | running_line :: rest =>
      if _is_similar_config baseline_line running_line network_os
      then (true,
            if negb (value_eqb baseline_line running_line)
            then different_configs ++
                 [{| baseline := baseline_line; running := running_line |}]
            else different_configs)
      else scan_running baseline_line rest network_os different_configs
  end.

(** The body of the outer [for baseline_line in baseline_lines] loop, on the
    state [(missing_configs, different_configs)]. *)
Definition baseline_step (running_config_lines : list value) (network_os : str)
    (st : list value * list diff_entry) (baseline_line : value)
  : list value * list diff_entry :=
  let '(missing_configs, different_configs) := st in
  if negb (py_in baseline_line running_config_lines)
  then
    let '(partial_match, different_configs) :=
      scan_running baseline_line running_config_lines network_os
                   different_configs in
    if negb partial_match
    then (missing_configs ++ [baseline_line], different_configs)
    else (missing_configs, different_configs)
  else st.

Definition compare_with_baseline (running_config_lines baseline_lines : list value)
    (network_os : str) : diff_result :=
  let running_config_lines :=
    if negb (truthy running_config_lines) then [] else running_config_lines in
  let baseline_lines :=
    if negb (truthy baseline_lines) then [] else baseline_lines in
  let '(missing_configs, different_configs) :=
    fold_left (baseline_step running_config_lines network_os)
              baseline_lines ([], []) in
  let has_differences :=
    truthy missing_configs || truthy different_configs in
  {| has_differences := has_differences;
     missing_configs := missing_configs;
     extra_configs := [];
     different_configs := different_configs;
     summary := _generate_summary missing_configs (@nil value) different_configs |}.

End FilterModule.

Import FilterModule.

(* ================================================================== *)
(** ** Specification-side definitions *)
(* ================================================================== *)

(** [l] occurs in [s] as a contiguous run of characters. *)
Definition substring_of (l s : str) : Prop :=
  exists pre post, s = pre ++ l ++ post.

(** The lines of a text. *)
Definition lines_of (s : str) : list str := split_on nl s.

(** A line [normalize_config] keeps, once trimmed: not empty, and starting
    with neither [!] nor [#]. *)
Definition kept_line (l : str) : bool :=
  match l with
  | [] => false
  | c :: _ => negb (N.eqb c 33) && negb (N.eqb c 35)
  end.

(** Normalization as the specification words it: split, trim every line,
    drop the noise lines, keep the rest in order. *)
Definition normalize_spec (config : str) : list str :=
  filter kept_line (List.map strip (split_on nl config)).

(** The platform identifiers with an extraction table. *)
Definition supported_platforms : list str :=
  [lit "ios"; lit "nxos"; lit "eos"; lit "comware"; lit "ce"].

(** The leading whitespace-delimited token of a line, empty when the line
    has no token. *)
Definition leading_token (s : str) : str := hd (lit "") (split_ws s).

(** A line without any token: a string that is empty or all whitespace. *)
Definition token_less (v : value) : bool :=
  match v with
  | VStr s => forallb is_space s
  | _ => false
  end.

(** The clauses of the summary, and the summary as the specification words
    it, from the two counts. *)
Definition missing_clause (n : nat) : str :=
  lit "Missing " ++ str_of_nat n ++ lit " baseline configuration(s)".

Definition found_clause (n : nat) : str :=
  lit "Found " ++ str_of_nat n ++ lit " configuration difference(s)".

Definition summary_spec (n_missing n_different : nat) : str :=
  match n_missing, n_different with
  | O, O => lit "Configuration matches baseline"
  | S _, O => missing_clause n_missing
  | O, S _ => found_clause n_different
  | S _, S _ =>
      missing_clause n_missing ++ lit "; " ++ found_clause n_different
  end.

(** The three outcomes of a baseline line. *)
Inductive outcome :=
| Exact
| Different (running_line : value)
| Missing.

Definition line_outcome (running_config_lines : list value) (network_os : str)
    (baseline_line : value) : outcome :=
  if py_in baseline_line running_config_lines then Exact
  else match find (fun r => _is_similar_config baseline_line r network_os)
                  running_config_lines with
       | Some r => Different r
       | None => Missing
       end.

Definition line_missing (running_config_lines : list value) (network_os : str)
    (baseline_line : value) : list value :=
  match line_outcome running_config_lines network_os baseline_line with
  | Missing => [baseline_line]
  | _ => []
  end.

Definition line_different (running_config_lines : list value)
    (network_os : str) (baseline_line : value) : list diff_entry :=
  match line_outcome running_config_lines network_os baseline_line with
  | Different r => [{| baseline := baseline_line; running := r |}]
  | _ => []
  end.

Definition value_eq_dec (a b : value) : {a = b} + {a <> b}.
Proof.
  decide equality; [apply (list_eq_dec N.eq_dec) | apply Z.eq_dec].
Defined.

(** Some running line is of the family of [baseline_line]. *)
Definition has_family_match (running_config_lines : list value)
    (network_os : str) (baseline_line : value) : bool :=
  existsb (fun r => _is_similar_config baseline_line r network_os)
          running_config_lines.

(** The value is a [str]. *)
Definition is_str (v : value) : bool :=
  match v with
  | VStr _ => true
  | _ => false
  end.

(** The keyword a pattern of the tables opens with. *)
Definition keyword_of (r : regex) : str :=
  match r with
  | Seq (Lit kw) _ => kw
  | _ => []
  end.

(** The table [extract_config_sections] selects for a platform. *)
Definition patterns_for (network_os : str) : list regex :=
  if existsb (str_eqb network_os) [lit "ios"; lit "nxos"; lit "eos"]
  then cisco_patterns
  else if str_eqb network_os (lit "comware") then h3c_patterns
  else if str_eqb network_os (lit "ce") then huawei_patterns
  else [].

(** The lookahead [(?=r)] succeeds in front of [rest]. *)
Definition at_boundary (r : regex) (rest : str) : bool :=
  match run r rest (fun s' => Some s') with
  | Some _ => true
  | None => false
  end.

(** The lookahead of a [lazy_until] pattern. *)
Definition lookahead_of (a1 a2 a3 : regex) : regex := Alt a1 (Alt a2 a3).

(** The character is a lowercase ASCII letter. *)
Definition is_lower (c : char) : bool := (N.leb 97 c) && (N.leb c 122).

(** The texts [ms] occur in [s] one after the other, without overlap. *)
Fixpoint scattered (ms : list str) (s : str) : Prop :=
  match ms with
  | [] => True
  | m :: ms' => exists pre rest, s = pre ++ m ++ rest /\ scattered ms' rest
  end.

(** What a section lookahead of the tables accepts: the end of the text, or a
    newline followed by a lowercase letter or by a character [extra]
    admits. *)
Definition top_level_ahead (extra : char -> bool) (rest : str) : bool :=
  match rest with
  | [] => true
  | c :: d :: _ => N.eqb nl c && (is_lower d || extra d)
  | [_] => false
  end.

(** Lines and a platform for the worked cases. *)
Definition snmp_public : value := VStr (lit "snmp-server community public RO").
Definition snmp_private : value := VStr (lit "snmp-server community private RO").
Definition snmp_location : value := VStr (lit "snmp-server location lab").
Definition tacacs_host : value := VStr (lit "tacacs-server host 10.0.0.1").
Definition ios : str := lit "ios".

(* ================================================================== *)
(** ** Strings *)
(* ================================================================== *)

Section Strings.

Lemma str_eqb_eq (a b : str) : str_eqb a b = true <-> a = b.
Proof.
  unfold str_eqb. destruct (list_eq_dec N.eq_dec a b); split; congruence.
Qed.

Lemma str_eqb_refl (a : str) : str_eqb a a = true.
Proof. now apply str_eqb_eq. Qed.

Lemma str_eqb_neq (a b : str) : str_eqb a b = false <-> a <> b.
Proof.
  unfold str_eqb. destruct (list_eq_dec N.eq_dec a b); split; congruence.
Qed.

Lemma truthy_false {A} (xs : list A) : truthy xs = false <-> xs = [].
Proof. destruct xs; simpl; split; congruence. Qed.

Lemma truthy_true {A} (xs : list A) : truthy xs = true <-> xs <> [].
Proof. destruct xs; simpl; split; congruence. Qed.

Lemma lstrip_idem (s : str) : lstrip (lstrip s) = lstrip s.
Proof.
  induction s as [|c t IH]; simpl; auto.
  destruct (is_space c) eqn:E; auto. simpl. now rewrite E.
Qed.

Lemma lstrip_snoc (u : str) (c : char) :
  is_space c = false -> lstrip (u ++ [c]) = lstrip u ++ [c].
Proof.
  intros Hc. induction u as [|a u IH]; simpl.
  - now rewrite Hc.
  - destruct (is_space a); auto.
Qed.

Lemma lstrip_fixed (s : str) :
  lstrip s = s <-> match s with [] => True | c :: _ => is_space c = false end.
Proof.
  destruct s as [|c t]; simpl; [tauto|].
  destruct (is_space c) eqn:E; split; auto; try discriminate.
  intros H. exfalso.
  assert (L : forall u, length (lstrip u) <= length u).
  { induction u as [|a u IH]; simpl; auto. destruct (is_space a); simpl; lia. }
  specialize (L t). rewrite H in L. simpl in L. lia.
Qed.

Lemma rstrip_keeps_head (c : char) (t : str) :
  is_space c = false -> rstrip (c :: t) = c :: rstrip t.
Proof.
  intros Hc. unfold rstrip. simpl.
  rewrite lstrip_snoc by assumption. rewrite rev_app_distr. reflexivity.
Qed.

Lemma lstrip_rstrip_fixed (t : str) :
  lstrip t = t -> lstrip (rstrip t) = rstrip t.
Proof.
  intros H. apply lstrip_fixed in H. destruct t as [|c t]; [reflexivity|].
  rewrite rstrip_keeps_head by assumption. simpl. now rewrite H.
Qed.

Lemma rstrip_idem (s : str) : rstrip (rstrip s) = rstrip s.
Proof.
  unfold rstrip. rewrite rev_involutive, lstrip_idem. reflexivity.
Qed.

Lemma strip_idem (s : str) : strip (strip s) = strip s.
Proof.
  unfold strip.
  rewrite lstrip_rstrip_fixed by apply lstrip_idem.
  apply rstrip_idem.
Qed.

Lemma lstrip_In (c : char) (s : str) : In c (lstrip s) -> In c s.
Proof.
  induction s as [|a t IH]; simpl; auto.
  destruct (is_space a); simpl; auto.
Qed.

Lemma strip_In (c : char) (s : str) : In c (strip s) -> In c s.
Proof.
  unfold strip, rstrip. intros H.
  apply in_rev, lstrip_In in H. apply in_rev in H. now apply lstrip_In.
Qed.

Lemma split_on_cons (sep : char) (s : str) :
  exists h r, split_on sep s = h :: r.
Proof.
  induction s as [|c t [h [r IH]]]; simpl; eauto.
  destruct (N.eqb c sep); eauto. rewrite IH. eauto.
Qed.

Lemma split_on_no_sep (sep : char) (s l : str) :
  In l (split_on sep s) -> ~ In sep l.
Proof.
  revert l. induction s as [|c t IH]; simpl; intros l H.
  - destruct H as [<-|[]]. auto.
  - destruct (N.eqb_spec c sep) as [->|Hne].
    + destruct H as [<-|H]; auto.
    + destruct (split_on sep t) as [|h r] eqn:E.
      * destruct H as [<-|[]]. simpl. intros [?|[]]. congruence.
      * destruct H as [<-|H].
        -- simpl. intros [?|Hin]; [congruence|].
           revert Hin. apply IH. now left.
        -- apply IH. now right.
Qed.

Lemma split_on_free (sep : char) (l : str) :
  ~ In sep l -> split_on sep l = [l].
Proof.
  induction l as [|c t IH]; simpl; intros H; auto.
  destruct (N.eqb_spec c sep) as [->|Hne]; [tauto|].
  rewrite IH by tauto. reflexivity.
Qed.

Lemma split_on_app (sep : char) (a b : str) :
  split_on sep (a ++ sep :: b) = split_on sep a ++ split_on sep b.
Proof.
  induction a as [|c t IH]; simpl.
  - now rewrite N.eqb_refl.
  - destruct (N.eqb c sep); [now rewrite IH|].
    rewrite IH. destruct (split_on_cons sep t) as [h [r ->]]. reflexivity.
Qed.

(** The lines of a joined text are the lines of its parts. *)
Lemma split_on_join (sep : char) (parts : list str) :
  parts <> [] ->
  split_on sep (join [sep] parts) = concat (List.map (split_on sep) parts).
Proof.
  induction parts as [|x rest IH]; [congruence|]. intros _.
  destruct rest as [|y rest'].
  - simpl. now rewrite app_nil_r.
  - change (join [sep] (x :: y :: rest')) with (x ++ sep :: join [sep] (y :: rest')).
    rewrite split_on_app, IH by discriminate. reflexivity.
Qed.

Lemma split_on_join_free (sep : char) (parts : list str) :
  parts <> [] -> (forall l, In l parts -> ~ In sep l) ->
  split_on sep (join [sep] parts) = parts.
Proof.
  intros Hne Hfree. rewrite split_on_join by assumption.
  clear Hne. induction parts as [|x rest IH]; [reflexivity|].
  simpl. rewrite split_on_free by (apply Hfree; now left).
  simpl. f_equal. apply IH. intros l Hl. apply Hfree. now right.
Qed.

Lemma substring_of_refl (s : str) : substring_of s s.
Proof. exists [], []. now rewrite app_nil_r. Qed.

Lemma substring_of_trans (a b c : str) :
  substring_of a b -> substring_of b c -> substring_of a c.
Proof.
  intros [p1 [q1 ->]] [p2 [q2 ->]].
  exists (p2 ++ p1), (q1 ++ q2). now rewrite !app_assoc.
Qed.

Lemma substring_of_cons (l s : str) (c : char) :
  substring_of l s -> substring_of l (c :: s).
Proof. intros [p [q ->]]. now exists (c :: p), q. Qed.

Lemma split_on_head_prefix (sep : char) (s h : str) (r : list str) :
  split_on sep s = h :: r -> exists q, s = h ++ q.
Proof.
  revert h r. induction s as [|a t IH]; simpl; intros h r E.
  - injection E as <- <-. now exists [].
  - destruct (N.eqb a sep).
    + injection E as <- <-. now exists (a :: t).
    + destruct (split_on sep t) as [|h' r'] eqn:E'.
      * injection E as <- <-. now exists t.
      * injection E as <- <-. destruct (IH h' r' eq_refl) as [q ->].
        now exists q.
Qed.

Lemma split_on_substring (sep : char) (s l : str) :
  In l (split_on sep s) -> substring_of l s.
Proof.
  revert l. induction s as [|c t IH]; simpl; intros l H.
  - destruct H as [<-|[]]. apply substring_of_refl.
  - destruct (N.eqb c sep).
    + destruct H as [<-|H].
      * now exists [], (c :: t).
      * apply substring_of_cons. now apply IH.
    + destruct (split_on sep t) as [|h r] eqn:E.
      * destruct H as [<-|[]]. now exists [], t.
      * destruct H as [<-|H].
        -- destruct (split_on_head_prefix _ _ E) as [q ->]. now exists [], q.
        -- apply substring_of_cons. apply IH. now right.
Qed.

End Strings.

(* ================================================================== *)
(** ** Normalizer *)
(* ================================================================== *)

Section Normalizer.

Variable network_os : str.

Lemma startswith_char (a c : char) (t : str) :
  startswith (c :: t) [a] = N.eqb a c.
Proof. cbn [startswith]. destruct t; apply andb_true_r. Qed.

Lemma normalize_step_kept (lines : list str) (line : str) :
  normalize_step lines line
  = lines ++ (if kept_line (strip line) then [strip line] else []).
Proof.
  unfold normalize_step, kept_line.
  change (lit "!") with [33%N]. change (lit "#") with [35%N].
  destruct (strip line) as [|c t].
  - cbn [truthy andb]. now rewrite app_nil_r.
  - rewrite !startswith_char, (N.eqb_sym 33 c), (N.eqb_sym 35 c).
    cbn [truthy andb].
    destruct (negb (c =? 33)%N && negb (c =? 35)%N); auto using app_nil_r.
Qed.

Lemma normalize_loop (ls : list str) (acc : list str) :
  fold_left normalize_step ls acc
  = acc ++ filter kept_line (List.map strip ls).
Proof.
  revert acc. induction ls as [|l ls IH]; intros acc; simpl.
  - now rewrite app_nil_r.
  - rewrite IH, normalize_step_kept.
    destruct (kept_line (strip l)); simpl.
    + now rewrite <- app_assoc.
    + now rewrite app_nil_r.
Qed.

Lemma normalize_config_spec (config : str) :
  normalize_config config network_os = normalize_spec config.
Proof.
  unfold normalize_config, normalize_spec.
  destruct config as [|c t]; [reflexivity|].
  cbn [truthy negb]. now rewrite normalize_loop.
Qed.

(** What every line of a normalized sequence looks like. *)
Lemma normalized_line (config l : str) :
  In l (normalize_config config network_os) ->
  kept_line l = true /\ strip l = l /\ ~ In nl l.
Proof.
  rewrite normalize_config_spec. unfold normalize_spec.
  intros H. apply filter_In in H. destruct H as [H Hk].
  apply in_map_iff in H. destruct H as [l0 [<- Hl0]].
  repeat split; auto using strip_idem.
  intros Hin. apply strip_In in Hin. revert Hin.
  now apply split_on_no_sep with (s := config).
Qed.

Lemma filter_kept_fixed (ls : list str) :
  (forall l, In l ls -> kept_line l = true /\ strip l = l) ->
  filter kept_line (List.map strip ls) = ls.
Proof.
  induction ls as [|l ls IH]; intros H; [reflexivity|]. simpl.
  destruct (H l (or_introl eq_refl)) as [Hk ->]. rewrite Hk.
  f_equal. apply IH. intros l' Hl'. apply H. now right.
Qed.

End Normalizer.

(** C4: [normalize_config] splits the text on line breaks, trims every line,
    drops the lines that are then empty or start with [!] or [#], and returns
    the other lines, trimmed, in their order and with their repetitions. *)
Theorem normalize_config_filters_trimmed_lines (config network_os : str) :
  normalize_config config network_os
  = filter kept_line (List.map strip (lines_of config)).
Proof. apply normalize_config_spec. Qed.

(** C3: [normalize_config] is idempotent: normalizing the newline-joined
    result of a normalization gives that result again. *)
Theorem normalize_config_idempotent (x network_os : str) :
  normalize_config (join [nl] (normalize_config x network_os)) network_os
  = normalize_config x network_os.
Proof.
  pose proof (normalized_line network_os x) as Hl.
  destruct (normalize_config x network_os) as [|l ls] eqn:E; [reflexivity|].
  rewrite normalize_config_spec. unfold normalize_spec.
  rewrite split_on_join_free.
  - apply filter_kept_fixed. intros l' Hl'. destruct (Hl l' Hl'); tauto.
  - discriminate.
  - intros l' Hl'. now apply Hl.
Qed.

(* ================================================================== *)
(** ** Pattern matching *)
(* ================================================================== *)

Section Matching.

Lemma strip_prefix_app (p s s' : str) :
  strip_prefix p s = Some s' -> s = p ++ s'.
Proof.
  revert s. induction p as [|a p IH]; intros s H; simpl in *.
  - congruence.
  - destruct s as [|c t]; [discriminate|].
    destruct (N.eqb_spec a c) as [->|]; [|discriminate].
    now rewrite (IH t H).
Qed.

Lemma star_loop_suffix (greedy : bool) (cs : cset) (k : str -> option str)
    (s e : str) :
  star_loop greedy cs k s = Some e ->
  exists p s', s = p ++ s' /\ k s' = Some e.
Proof.
  induction s as [|c t IH]; simpl; intros H.
  - now exists [], [].
  - destruct (cset_mem cs c).
    + destruct greedy.
      * destruct (star_loop true cs k t) as [e'|] eqn:E.
        -- destruct (IH H) as [p [s' [-> Hk]]]. now exists (c :: p), s'.
        -- now exists [], (c :: t).
      * destruct (k (c :: t)) as [e'|] eqn:E.
        -- exists [], (c :: t). split; [reflexivity | congruence].
        -- destruct (IH H) as [p [s' [-> Hk]]]. now exists (c :: p), s'.
    + now exists [], (c :: t).
Qed.

(** The continuation of a successful run was called on a suffix of the text:
    a match never consumes anything but the characters in front of it. *)
Lemma run_suffix (r : regex) :
  forall (s : str) (k : str -> option str) (e : str),
    run r s k = Some e ->
    exists p s', s = p ++ s' /\ k s' = Some e.
Proof.
  induction r as [p| cs | | r1 IH1 r2 IH2 | r1 IH1 r2 IH2 | g cs | r1 IH1];
    intros s k e H; simpl in H.
  - destruct (strip_prefix p s) as [s'|] eqn:E; [|discriminate].
    exists p, s'. split; auto using strip_prefix_app.
  - destruct s as [|c t]; [discriminate|].
    destruct (cset_mem cs c); [|discriminate]. now exists [c], t.
  - destruct s; [|discriminate]. now exists [], [].
  - destruct (IH1 _ _ _ H) as [p1 [s1 [-> H1]]].
    destruct (IH2 _ _ _ H1) as [p2 [s2 [-> H2]]].
    exists (p1 ++ p2), s2. now rewrite app_assoc.
  - destruct (run r1 s k) as [e'|] eqn:E.
    + injection H as <-. eauto.
    + eauto.
  - eauto using star_loop_suffix.
  - destruct (run r1 s (fun s' => Some s')); [|discriminate].
    now exists [], s.
Qed.

(** A match at the start of [s] is a prefix of [s]. *)
Lemma match_here_prefix (r : regex) (s m : str) :
  match_here r s = Some m -> exists q, s = m ++ q.
Proof.
  unfold match_here. destruct (run r s (fun s' => Some s')) as [rest|] eqn:E;
    [|discriminate].
  intros H. injection H as <-.
  destruct (run_suffix _ _ _ E) as [p [s' [-> Hs']]]. injection Hs' as ->.
  exists rest. rewrite length_app, Nat.add_sub.
  now rewrite firstn_app, Nat.sub_diag, firstn_all, firstn_O, app_nil_r.
Qed.

(** A pattern that opens with a keyword only matches with that keyword in
    front: the matched text is never empty. *)
Lemma keyword_match_nonempty (kw : str) (r : regex) (s m : str) :
  kw <> [] -> match_here (Seq (Lit kw) r) s = Some m -> m <> [].
Proof.
  intros Hkw. unfold match_here. simpl.
  destruct (strip_prefix kw s) as [s1|] eqn:E; [|discriminate].
  apply strip_prefix_app in E. subst s.
  destruct (run r s1 (fun s' => Some s')) as [rest|] eqn:Er; [|discriminate].
  destruct (run_suffix _ _ _ Er) as [p [s' [-> Hs']]]. injection Hs' as ->.
  intros H. injection H as <-.
  rewrite !length_app.
  replace (length kw + (length p + length rest) - length rest)
    with (length kw + length p) by lia.
  rewrite firstn_app, firstn_all2 by lia.
  destruct kw; [congruence|discriminate].
Qed.

(** Every pattern of the three tables opens with a keyword, so the scan of
    [findall_from] never meets an empty match on them. *)
Lemma table_match_nonempty (pattern : regex) (s m : str) :
  In pattern (cisco_patterns ++ h3c_patterns ++ huawei_patterns) ->
  match_here pattern s = Some m -> m <> [].
Proof.
  intros Hin. simpl in Hin.
  repeat (destruct Hin as [<-|Hin];
          [apply keyword_match_nonempty; discriminate|]).
  contradiction.
Qed.

Lemma findall_from_substring (r : regex) (s : str) :
  forall (skip : nat) (m : str),
    In m (findall_from r skip s) -> substring_of m s.
Proof.
  induction s as [|c t IH]; intros skip m H.
  - destruct skip; simpl in H; [|contradiction].
    destruct (match_here r []) as [m'|] eqn:E; [|contradiction].
    destruct H as [<-|[]].
    destruct (match_here_prefix _ _ E) as [q Hq]. now exists [], q.
  - destruct skip; simpl in H.
    + destruct (match_here r (c :: t)) as [m'|] eqn:E.
      * destruct H as [<-|H].
        -- destruct (match_here_prefix _ _ E) as [q Hq]. now exists [], q.
        -- apply substring_of_cons. eauto.
      * apply substring_of_cons. eauto.
    + apply substring_of_cons. eauto.
Qed.

Lemma findall_substring (pattern : regex) (text m : str) :
  In m (findall pattern text) -> substring_of m text.
Proof. apply findall_from_substring. Qed.

End Matching.

(* ================================================================== *)
(** ** Section extractor *)
(* ================================================================== *)

Section Extractor.

Variable config : str.

Lemma extract_loop_substring (patterns : list regex) :
  forall (acc : list str) (m : str),
    In m (fold_left (extract_step config) patterns acc) ->
    In m acc \/ substring_of m config.
Proof.
  induction patterns as [|p ps IH]; intros acc m H; simpl in H; auto.
  apply IH in H. destruct H as [H|H]; auto.
  unfold extract_step in H.
  destruct (truthy (findall p config)); auto.
  apply in_app_or in H. destruct H as [H|H]; auto.
  right. now apply findall_substring with (pattern := p).
Qed.

Lemma extracted_lines (patterns : list regex) (l : str) :
  In l (lines_of (join [nl] (fold_left (extract_step config) patterns []))) ->
  substring_of l config.
Proof.
  unfold lines_of.
  destruct (fold_left (extract_step config) patterns []) as [|m ms] eqn:E.
  - simpl. intros [<-|[]]. now exists [], config.
  - rewrite split_on_join by discriminate. intros H.
    apply in_concat in H. destruct H as [piece [Hp Hl]].
    apply in_map_iff in Hp. destruct Hp as [m' [<- Hm']].
    apply substring_of_trans with (b := m').
    + now apply split_on_substring with (sep := nl).
    + rewrite <- E in Hm'. apply extract_loop_substring in Hm'.
      destruct Hm' as [[]|Hm']. assumption.
Qed.

Lemma empty_line_substring (l : str) :
  In l (lines_of (lit "")) -> substring_of l config.
Proof. simpl. intros [<-|[]]. now exists [], config. Qed.

End Extractor.

(** C2: every line of the text [extract_config_sections] returns occurs
    verbatim, as a contiguous run of characters, in the input text. *)
Theorem extract_config_sections_lines_verbatim
    (running_config network_os l : str) :
  In l (lines_of (extract_config_sections running_config network_os)) ->
  substring_of l running_config.
Proof.
  unfold extract_config_sections, _extract_cisco_sections,
    _extract_h3c_sections, _extract_huawei_sections.
  destruct (existsb _ _);
    [|destruct (str_eqb network_os (lit "comware"));
      [|destruct (str_eqb network_os (lit "ce"))]].
  4: { intros H. now apply split_on_substring with (sep := nl). }
  all: destruct (negb (truthy running_config)); cbv zeta;
    [apply empty_line_substring | apply extracted_lines].
Qed.

(** C6: on empty text every supported platform gives empty text; any other
    platform identifier gives the input back unchanged, empty or not. *)
Theorem extract_config_sections_empty_and_passthrough (network_os : str) :
  (In network_os supported_platforms ->
   extract_config_sections (lit "") network_os = lit "")
  /\ (~ In network_os supported_platforms ->
      forall running_config,
        extract_config_sections running_config network_os = running_config).
Proof.
  split.
  - intros H. unfold supported_platforms in H. simpl in H.
    repeat (destruct H as [<-|H]; [reflexivity|]). contradiction.
  - intros H running_config. unfold extract_config_sections.
    assert (E1 : existsb (str_eqb network_os) [lit "ios"; lit "nxos"; lit "eos"]
                 = false).
    { apply not_true_is_false. intros E. apply existsb_exists in E.
      destruct E as [x [Hx E]]. apply str_eqb_eq in E. subst x.
      apply H. unfold supported_platforms. simpl in *. tauto. }
    assert (E2 : str_eqb network_os (lit "comware") = false).
    { apply str_eqb_neq. intros ->. apply H. unfold supported_platforms.
      simpl. tauto. }
    assert (E3 : str_eqb network_os (lit "ce") = false).
    { apply str_eqb_neq. intros ->. apply H. unfold supported_platforms.
      simpl. tauto. }
    now rewrite E1, E2, E3.
Qed.

(* ================================================================== *)
(** ** Family match *)
(* ================================================================== *)

Section FamilyMatch.

Lemma split_ws_from_nonempty (s : str) :
  forall (cur t : str), In t (split_ws_from cur s) -> t <> [].
Proof.
  induction s as [|c s IH]; intros cur t H; simpl in H.
  - destruct cur; simpl in H; [contradiction|].
    destruct H as [<-|[]]. discriminate.
  - destruct (is_space c).
    + destruct cur; simpl in H; eauto.
      destruct H as [<-|H]; [discriminate|eauto].
    + eauto.
Qed.

Lemma split_ws_from_nil (s : str) :
  forall cur : str,
    split_ws_from cur s = [] <-> cur = [] /\ forallb is_space s = true.
Proof.
  induction s as [|c s IH]; intros cur; simpl.
  - destruct cur; simpl; split; intros H; try tauto; try discriminate.
    destruct H; discriminate.
  - destruct (is_space c); simpl.
    + destruct cur; simpl.
      * rewrite IH. tauto.
      * split; intros H; [discriminate|]. destruct H; discriminate.
    + rewrite IH. split; intros [H1 H2]; try discriminate.
      destruct cur; discriminate.
Qed.

Lemma split_ws_nil (s : str) :
  split_ws s = [] <-> forallb is_space s = true.
Proof. unfold split_ws. rewrite split_ws_from_nil. tauto. Qed.

Lemma leading_token_nil (s : str) :
  leading_token s = [] <-> forallb is_space s = true.
Proof.
  rewrite <- split_ws_nil. unfold leading_token.
  destruct (split_ws s) as [|t ts] eqn:E; simpl; [tauto|].
  split; [|discriminate]. intros ->.
  exfalso. apply (@split_ws_from_nonempty s [] []); [|reflexivity].
  fold (split_ws s). rewrite E. now left.
Qed.

Variable network_os : str.

(** On two strings the [try] block runs to its end. *)
Lemma is_similar_try_str (s t : str) :
  _is_similar_config_try (VStr s) (VStr t) network_os
  = Ok (str_eqb (leading_token s) (leading_token t)).
Proof.
  unfold _is_similar_config_try, leading_token. simpl.
  destruct (split_ws s); destruct (split_ws t); reflexivity.
Qed.

Lemma is_similar_str (s t : str) :
  _is_similar_config (VStr s) (VStr t) network_os
  = str_eqb (leading_token s) (leading_token t).
Proof. unfold _is_similar_config. now rewrite is_similar_try_str. Qed.

Lemma is_similar_token_less_l (b r : value) :
  token_less b = true ->
  _is_similar_config b r network_os = token_less r.
Proof.
  destruct b as [s| |]; simpl; try discriminate. intros Hs.
  apply leading_token_nil in Hs.
  destruct r as [t| |]; simpl.
  - rewrite is_similar_str, Hs.
    destruct (forallb is_space t) eqn:Et.
    + apply leading_token_nil in Et. rewrite Et. reflexivity.
    + apply str_eqb_neq. intros E. symmetry in E.
      apply leading_token_nil in E. congruence.
  - unfold _is_similar_config, _is_similar_config_try. simpl.
    now destruct (split_ws s).
  - unfold _is_similar_config, _is_similar_config_try. simpl.
    now destruct (split_ws s).
Qed.

Lemma is_similar_token_less_r (b r : value) :
  token_less r = true ->
  _is_similar_config b r network_os = token_less b.
Proof.
  destruct r as [t| |]; simpl; try discriminate. intros Ht.
  apply leading_token_nil in Ht.
  destruct b as [s| |]; simpl; try reflexivity.
  rewrite is_similar_str, Ht.
  destruct (forallb is_space s) eqn:Es.
  - apply leading_token_nil in Es. rewrite Es. reflexivity.
  - apply str_eqb_neq. intros E. apply leading_token_nil in E. congruence.
Qed.

End FamilyMatch.

(** C8: the family-match check never lets a fault out.  On two strings the
    guarded block itself raises nothing and compares the leading tokens,
    where a line that is empty or all whitespace has the empty leading token;
    whenever the guarded block raises, the answer is "not similar"; and a
    token-less line is similar to another line exactly when that line is
    token-less too. *)
Theorem is_similar_config_never_raises (network_os : str) :
  (forall s t,
      _is_similar_config_try (VStr s) (VStr t) network_os
      = Ok (str_eqb (leading_token s) (leading_token t)))
  /\ (forall s, forallb is_space s = true -> leading_token s = lit "")
  /\ (forall b r e,
         _is_similar_config_try b r network_os = Raise e ->
         _is_similar_config b r network_os = false)
  /\ (forall b r,
         token_less b = true ->
         _is_similar_config b r network_os = token_less r)
  /\ (forall b r,
         token_less r = true ->
         _is_similar_config b r network_os = token_less b).
Proof.
  repeat split.
  - apply is_similar_try_str.
  - intros s Hs. now apply leading_token_nil.
  - intros b r e H. unfold _is_similar_config. now rewrite H.
  - apply is_similar_token_less_l.
  - apply is_similar_token_less_r.
Qed.

(* ================================================================== *)
(** ** Baseline comparator *)
(* ================================================================== *)

Section Comparator.

Lemma value_eqb_eq (a b : value) : value_eqb a b = true <-> a = b.
Proof.
  destruct a, b; simpl; try (split; congruence).
  - rewrite str_eqb_eq. split; congruence.
  - rewrite Z.eqb_eq. split; congruence.
Qed.

Lemma py_in_In (x : value) (xs : list value) : py_in x xs = true <-> In x xs.
Proof.
  unfold py_in. rewrite existsb_exists. split.
  - intros [y [Hy E]]. apply value_eqb_eq in E. now subst.
  - intros H. exists x. split; auto. now apply value_eqb_eq.
Qed.

Lemma py_in_not_In (x : value) (xs : list value) :
  py_in x xs = false <-> ~ In x xs.
Proof.
  rewrite <- py_in_In. destruct (py_in x xs); split; congruence.
Qed.

Lemma or_empty {A} (xs : list A) :
  (if negb (truthy xs) then [] else xs) = xs.
Proof. now destruct xs. Qed.

Variable running_config_lines : list value.
Variable network_os : str.

Local Abbreviation R := running_config_lines.
Local Abbreviation similar b := (fun r => _is_similar_config b r network_os).

(** The inner loop stops at the first running line of the same family. *)
Lemma scan_running_find (b : value) (rs : list value) (d : list diff_entry) :
  scan_running b rs network_os d
  = match find (similar b) rs with
    | Some r =>
        (true,
         if negb (value_eqb b r)
         then d ++ [{| baseline := b; running := r |}] else d)
    | None => (false, d)
    end.
Proof.
  induction rs as [|r rs IH]; simpl; auto.
  destruct (_is_similar_config b r network_os); auto.
Qed.

Lemma baseline_step_outcome (m : list value) (d : list diff_entry) (b : value) :
  baseline_step R network_os (m, d) b
  = (m ++ line_missing R network_os b, d ++ line_different R network_os b).
Proof.
  unfold baseline_step, line_missing, line_different, line_outcome.
  destruct (py_in b R) eqn:Hin; simpl.
  - now rewrite !app_nil_r.
  - rewrite scan_running_find.
    destruct (find (similar b) R) as [r|] eqn:Hf; simpl.
    + apply find_some in Hf. destruct Hf as [Hr _].
      destruct (value_eqb b r) eqn:E.
      * apply value_eqb_eq in E. subst r.
        apply py_in_not_In in Hin. contradiction.
      * simpl. now rewrite app_nil_r.
    + now rewrite app_nil_r.
Qed.

Lemma baseline_loop (bs : list value) :
  forall (m : list value) (d : list diff_entry),
    fold_left (baseline_step R network_os) bs (m, d)
    = (m ++ flat_map (line_missing R network_os) bs,
       d ++ flat_map (line_different R network_os) bs).
Proof.
  induction bs as [|b bs IH]; intros m d; cbn [fold_left flat_map].
  - now rewrite !app_nil_r.
  - rewrite baseline_step_outcome, IH, <- !app_assoc. reflexivity.
Qed.

Variable baseline_lines : list value.
Local Abbreviation B := baseline_lines.

Lemma compare_missing :
  missing_configs (compare_with_baseline R B network_os)
  = flat_map (line_missing R network_os) B.
Proof.
  unfold compare_with_baseline. rewrite !or_empty, baseline_loop. reflexivity.
Qed.

Lemma compare_different :
  different_configs (compare_with_baseline R B network_os)
  = flat_map (line_different R network_os) B.
Proof.
  unfold compare_with_baseline. rewrite !or_empty, baseline_loop. reflexivity.
Qed.

Lemma compare_extra :
  extra_configs (compare_with_baseline R B network_os) = [].
Proof.
  unfold compare_with_baseline. rewrite !or_empty, baseline_loop. reflexivity.
Qed.

Lemma compare_summary :
  summary (compare_with_baseline R B network_os)
  = _generate_summary
      (missing_configs (compare_with_baseline R B network_os))
      (@nil value)
      (different_configs (compare_with_baseline R B network_os)).
Proof.
  unfold compare_with_baseline. rewrite !or_empty, baseline_loop. reflexivity.
Qed.

Lemma line_outcome_exact (b : value) :
  line_outcome R network_os b = Exact <-> In b R.
Proof.
  unfold line_outcome. rewrite <- py_in_In.
  destruct (py_in b R); [tauto|].
  destruct (find (similar b) R); split; discriminate.
Qed.

End Comparator.

Section Outcomes.

Variable running_config_lines : list value.
Variable network_os : str.
Local Abbreviation R := running_config_lines.

Lemma in_flat_missing (b : value) (bs : list value) :
  In b (flat_map (line_missing R network_os) bs)
  <-> In b bs /\ line_outcome R network_os b = Missing.
Proof.
  rewrite in_flat_map. unfold line_missing. split.
  - intros [x [Hx H]].
    destruct (line_outcome R network_os x) eqn:E; simpl in H; try contradiction.
    destruct H as [<-|[]]. auto.
  - intros [H E]. exists b. rewrite E. simpl. auto.
Qed.

Lemma in_flat_different (b : value) (bs : list value) :
  In b (List.map baseline (flat_map (line_different R network_os) bs))
  <-> In b bs /\ exists r, line_outcome R network_os b = Different r.
Proof.
  rewrite in_map_iff. unfold line_different. split.
  - intros [e [<- He]]. apply in_flat_map in He. destruct He as [x [Hx H]].
    destruct (line_outcome R network_os x) eqn:E; simpl in H; try contradiction.
    destruct H as [<-|[]]. simpl. eauto.
  - intros [H [r E]]. exists {| baseline := b; running := r |}.
    split; auto. apply in_flat_map. exists b. rewrite E. simpl. auto.
Qed.

Lemma count_flat_missing (b : value) (bs : list value) :
  count_occ value_eq_dec (flat_map (line_missing R network_os) bs) b
  = match line_outcome R network_os b with
    | Missing => count_occ value_eq_dec bs b
    | _ => 0
    end.
Proof.
  induction bs as [|x bs IH]; simpl.
  - now destruct (line_outcome R network_os b).
  - rewrite count_occ_app, IH. unfold line_missing.
    destruct (value_eq_dec x b) as [->|Hne].
    + destruct (line_outcome R network_os b); simpl; auto.
      destruct (value_eq_dec b b); [reflexivity | congruence].
    + destruct (line_outcome R network_os x); simpl; auto.
      destruct (value_eq_dec x b); [congruence | reflexivity].
Qed.

Lemma count_flat_different (b : value) (bs : list value) :
  count_occ value_eq_dec
    (List.map baseline (flat_map (line_different R network_os) bs)) b
  = match line_outcome R network_os b with
    | Different _ => count_occ value_eq_dec bs b
    | _ => 0
    end.
Proof.
  induction bs as [|x bs IH]; simpl.
  - now destruct (line_outcome R network_os b).
  - rewrite map_app, count_occ_app, IH. unfold line_different.
    destruct (value_eq_dec x b) as [->|Hne].
    + destruct (line_outcome R network_os b); simpl; auto.
      destruct (value_eq_dec b b); [reflexivity | congruence].
    + destruct (line_outcome R network_os x); simpl; auto.
      destruct (value_eq_dec x b); [congruence | reflexivity].
Qed.

End Outcomes.

(** C1: every baseline line has exactly one of the three outcomes: it is in
    the running lines and then in neither output list; or it is the baseline
    of a pair of [different_configs] and not in [missing_configs]; or it is
    in [missing_configs] and in no pair.  Its occurrences in the two lists
    together are its occurrences in the baseline when it is not in the
    running lines, and none when it is. *)
Theorem baseline_line_in_exactly_one_outcome
    (running_config_lines baseline_lines : list value) (network_os : str)
    (b : value) :
  In b baseline_lines ->
  let res :=
    compare_with_baseline running_config_lines baseline_lines network_os in
  let in_missing := In b (missing_configs res) in
  let in_different := In b (List.map baseline (different_configs res)) in
  ((In b running_config_lines /\ ~ in_different /\ ~ in_missing)
   \/ (~ In b running_config_lines /\ in_different /\ ~ in_missing)
   \/ (~ In b running_config_lines /\ ~ in_different /\ in_missing))
  /\ count_occ value_eq_dec (missing_configs res) b
     + count_occ value_eq_dec (List.map baseline (different_configs res)) b
     = if py_in b running_config_lines then 0
       else count_occ value_eq_dec baseline_lines b.
Proof.
  intros Hb res in_missing in_different.
  subst in_missing in_different res.
  rewrite compare_missing, compare_different.
  rewrite in_flat_missing, in_flat_different.
  rewrite count_flat_missing, count_flat_different.
  pose proof (line_outcome_exact running_config_lines network_os b) as Hex.
  pose proof (py_in_In b running_config_lines) as Hin.
  destruct (line_outcome running_config_lines network_os b) as [|r|] eqn:E.
  - assert (H : In b running_config_lines) by now apply Hex.
    split.
    + left. repeat split; auto.
      * intros [_ [r' Hr']]. discriminate.
      * intros [_ H']. discriminate.
    + apply Hin in H. now rewrite H.
  - assert (H : ~ In b running_config_lines).
    { intros H. apply Hex in H. discriminate. }
    split.
    + right. left. repeat split; eauto. intros [_ H']. discriminate.
    + apply py_in_not_In in H. rewrite H. reflexivity.
  - assert (H : ~ In b running_config_lines).
    { intros H. apply Hex in H. discriminate. }
    split.
    + right. right. repeat split; auto. intros [_ [r' Hr']]. discriminate.
    + apply py_in_not_In in H. rewrite H. lia.
Qed.

(** C7: [extra_configs] is the empty list, whatever the inputs. *)
Theorem extra_configs_always_empty
    (running_config_lines baseline_lines : list value) (network_os : str) :
  extra_configs
    (compare_with_baseline running_config_lines baseline_lines network_os)
  = [].
Proof. apply compare_extra. Qed.

(** C5: the summary is the clause on the missing lines when there are some,
    then the clause on the differences when there are some, joined by
    [; ]; without any clause it is [Configuration matches baseline].  The
    summary of a comparison is built this way from its two lists. *)
Theorem summary_built_from_clauses :
  (forall (A B C : Type) (missing : list A) (extra : list B)
          (different : list C),
      _generate_summary missing extra different
      = summary_spec (length missing) (length different))
  /\ (forall (running_config_lines baseline_lines : list value)
             (network_os : str),
         let res :=
           compare_with_baseline running_config_lines baseline_lines
                                 network_os in
         summary res
         = summary_spec (length (missing_configs res))
                        (length (different_configs res))).
Proof.
  assert (G : forall (A B C : Type) (missing : list A) (extra : list B)
                     (different : list C),
             _generate_summary missing extra different
             = summary_spec (length missing) (length different)).
  { intros A B C missing extra different.
    unfold _generate_summary, summary_spec, missing_clause, found_clause.
    destruct missing, different; reflexivity. }
  split; [exact G|].
  intros R B os res. subst res. rewrite compare_summary. apply G.
Qed.

Section Platform.

Variables os1 os2 : str.

Lemma scan_running_os (b : value) (rs : list value) (d : list diff_entry) :
  scan_running b rs os1 d = scan_running b rs os2 d.
Proof.
  induction rs as [|r rs IH]; simpl; auto.
  change (_is_similar_config b r os2) with (_is_similar_config b r os1).
  now rewrite IH.
Qed.

Lemma baseline_loop_os (rs bs : list value) :
  forall st,
    fold_left (baseline_step rs os1) bs st
    = fold_left (baseline_step rs os2) bs st.
Proof.
  induction bs as [|b bs IH]; intros st; simpl; auto.
  rewrite IH. f_equal. destruct st as [m d]. unfold baseline_step.
  now rewrite scan_running_os.
Qed.

End Platform.

(** C9: [network_os] has no influence on normalization or comparison: two
    platform identifiers, whichever they are, give the same normalized lines
    and the same comparison result. *)
Theorem network_os_does_not_influence (os1 os2 : str) :
  (forall config, normalize_config config os1 = normalize_config config os2)
  /\ (forall running_config_lines baseline_lines,
         compare_with_baseline running_config_lines baseline_lines os1
         = compare_with_baseline running_config_lines baseline_lines os2).
Proof.
  split; [reflexivity|].
  intros R B. unfold compare_with_baseline.
  now rewrite (baseline_loop_os os1 os2).
Qed.

(** C10: running lines are never consumed.  The outputs for a baseline are
    the outputs of its lines taken one by one against the whole running
    sequence; so two baseline lines absent from the running lines whose
    family is first met at the same running line [r] are both paired with
    [r], as in the comparison written out last. *)
Theorem running_lines_are_never_consumed
    (running_config_lines baseline_lines : list value) (network_os : str) :
  different_configs
    (compare_with_baseline running_config_lines baseline_lines network_os)
  = flat_map
      (fun b => different_configs
                  (compare_with_baseline running_config_lines [b] network_os))
      baseline_lines
  /\ missing_configs
       (compare_with_baseline running_config_lines baseline_lines network_os)
     = flat_map
         (fun b => missing_configs
                     (compare_with_baseline running_config_lines [b] network_os))
         baseline_lines
  /\ (forall b1 b2 r,
         In b1 baseline_lines -> In b2 baseline_lines ->
         ~ In b1 running_config_lines -> ~ In b2 running_config_lines ->
         find (fun x => _is_similar_config b1 x network_os) running_config_lines
         = Some r ->
         find (fun x => _is_similar_config b2 x network_os) running_config_lines
         = Some r ->
         let different :=
           different_configs
             (compare_with_baseline running_config_lines baseline_lines
                                    network_os) in
         In {| baseline := b1; running := r |} different
         /\ In {| baseline := b2; running := r |} different)
  /\ different_configs
       (compare_with_baseline
          [VStr (lit "snmp-server community private RO")]
          [VStr (lit "snmp-server community public RO");
           VStr (lit "snmp-server location lab")]
          network_os)
     = [ {| baseline := VStr (lit "snmp-server community public RO");
            running := VStr (lit "snmp-server community private RO") |};
         {| baseline := VStr (lit "snmp-server location lab");
            running := VStr (lit "snmp-server community private RO") |} ].
Proof.
  split; [|split; [|split]].
  - rewrite compare_different. apply flat_map_ext. intros b.
    rewrite compare_different. simpl. now rewrite app_nil_r.
  - rewrite compare_missing. apply flat_map_ext. intros b.
    rewrite compare_missing. simpl. now rewrite app_nil_r.
  - intros b1 b2 r Hb1 Hb2 Hn1 Hn2 Hf1 Hf2 different. subst different.
    rewrite compare_different.
    apply py_in_not_In in Hn1. apply py_in_not_In in Hn2.
    split; apply in_flat_map; [exists b1 | exists b2]; split; auto;
      unfold line_different, line_outcome.
    + rewrite Hn1, Hf1. now left.
    + rewrite Hn2, Hf2. now left.
  - reflexivity.
Qed.

(* ================================================================== *)
(** ** Instances *)
(* ================================================================== *)

Lemma baseline_line_in_exactly_one_outcome_witness :
  In snmp_public [snmp_public; tacacs_host]
  /\ count_occ value_eq_dec
       (missing_configs
          (compare_with_baseline [snmp_private] [snmp_public; tacacs_host] ios))
       snmp_public
     + count_occ value_eq_dec
         (List.map baseline
            (different_configs
               (compare_with_baseline [snmp_private]
                                      [snmp_public; tacacs_host] ios)))
         snmp_public
     = 1.
Proof.
  split.
  - simpl. auto.
  - apply (proj2 (baseline_line_in_exactly_one_outcome
                    [snmp_private] [snmp_public; tacacs_host] ios snmp_public
                    (or_introl eq_refl))).
Defined.

Lemma extract_config_sections_lines_verbatim_witness :
  In (lit "snmp-server community public RO")
     (lines_of (extract_config_sections
                  (join [nl] [lit "hostname r1";
                              lit "snmp-server community public RO"]) ios))
  /\ substring_of (lit "snmp-server community public RO")
       (join [nl] [lit "hostname r1"; lit "snmp-server community public RO"]).
Proof.
  assert (H : In (lit "snmp-server community public RO")
                 (lines_of (extract_config_sections
                    (join [nl] [lit "hostname r1";
                                lit "snmp-server community public RO"]) ios))).
  { vm_compute. left. reflexivity. }
  split; [exact H|].
  exact (extract_config_sections_lines_verbatim _ _ _ H).
Defined.

Lemma extract_config_sections_empty_and_passthrough_witness :
  extract_config_sections (lit "") (lit "ce") = lit ""
  /\ extract_config_sections (lit "hostname r1") (lit "junos")
     = lit "hostname r1".
Proof.
  split.
  - apply (proj1 (extract_config_sections_empty_and_passthrough (lit "ce"))).
    vm_compute. tauto.
  - apply (proj2 (extract_config_sections_empty_and_passthrough (lit "junos"))).
    vm_compute. intuition discriminate.
Defined.

Lemma is_similar_config_never_raises_witness :
  _is_similar_config (VStr (lit "  ")) (VStr (lit "")) ios = true
  /\ _is_similar_config (VStr (lit "  ")) snmp_public ios = false
  /\ _is_similar_config (VInt 5) (VStr (lit "5")) ios = false.
Proof.
  destruct (is_similar_config_never_raises ios) as [_ [_ [H3 [H4 _]]]].
  split; [|split].
  - rewrite (H4 (VStr (lit "  ")) (VStr (lit ""))); reflexivity.
  - rewrite (H4 (VStr (lit "  ")) snmp_public); reflexivity.
  - apply (H3 (VInt 5) (VStr (lit "5")) AttributeError). reflexivity.
Defined.

Lemma running_lines_are_never_consumed_witness :
  In {| baseline := snmp_public; running := snmp_private |}
     (different_configs
        (compare_with_baseline [tacacs_host; snmp_private]
                               [snmp_public; snmp_location] ios))
  /\ In {| baseline := snmp_location; running := snmp_private |}
        (different_configs
           (compare_with_baseline [tacacs_host; snmp_private]
                                  [snmp_public; snmp_location] ios)).
Proof.
  apply (proj1 (proj2 (proj2 (running_lines_are_never_consumed
                  [tacacs_host; snmp_private] [snmp_public; snmp_location] ios)))
           snmp_public snmp_location snmp_private).
  - simpl. auto.
  - simpl. auto.
  - vm_compute. intuition discriminate.
  - vm_compute. intuition discriminate.
  - reflexivity.
  - reflexivity.
Defined.

(** The worked cases of the specification. *)

Example summary_missing_only :
  _generate_summary [lit "a"; lit "b"] (@nil str) (@nil diff_entry)
  = lit "Missing 2 baseline configuration(s)".
Proof. reflexivity. Qed.

Example summary_different_only :
  _generate_summary (@nil str) (@nil str)
    [{| baseline := VStr (lit "x"); running := VStr (lit "y") |}]
  = lit "Found 1 configuration difference(s)".
Proof. reflexivity. Qed.

Example summary_both :
  _generate_summary [lit "a"] (@nil str)
    [{| baseline := VStr (lit "x"); running := VStr (lit "y") |}]
  = lit "Missing 1 baseline configuration(s); Found 1 configuration difference(s)".
Proof. reflexivity. Qed.

Example summary_none :
  _generate_summary (@nil str) (@nil str) (@nil diff_entry)
  = lit "Configuration matches baseline".
Proof. reflexivity. Qed.

Example scenario_snmp_community_differs :
  let res := compare_with_baseline [snmp_private] [snmp_public] ios in
  different_configs res
  = [{| baseline := snmp_public; running := snmp_private |}]
  /\ missing_configs res = []
  /\ has_differences res = true.
Proof. repeat split. Qed.

Example scenario_tacacs_missing :
  let res := compare_with_baseline [snmp_private] [tacacs_host] ios in
  missing_configs res = [tacacs_host] /\ different_configs res = [].
Proof. repeat split. Qed.

Example normalize_drops_noise :
  normalize_config
    (join [nl] [lit "  a b "; lit "!c"; lit ""; lit "#d"; lit " e"]) ios
  = [lit "a b"; lit "e"].
Proof. reflexivity. Qed.

Example extract_cisco_sections :
  extract_config_sections
    (join [nl] [lit "hostname r1"; lit "banner login ^C"; lit "hello";
                lit "line con 0"; lit " login"; lit "line vty 0 4";
                lit " transport input ssh"; lit "ntp server x"]) ios
  = join [nl] [lit "banner login ^C"; lit "line con 0"; lit " login";
               lit "line vty 0 4"; lit " transport input ssh"].
Proof. reflexivity. Qed.

(* ================================================================== *)
(** ** Further properties of the comparator *)
(* ================================================================== *)

Section ComparatorMore.

Variable running_config_lines : list value.
Variable network_os : str.
Local Abbreviation R := running_config_lines.

Lemma existsb_find {A} (f : A -> bool) (l : list A) :
  existsb f l = match find f l with Some _ => true | None => false end.
Proof.
  induction l as [|x l IH]; simpl; auto. destruct (f x); auto.
Qed.

Lemma line_outcome_missing (b : value) :
  line_outcome R network_os b = Missing
  <-> py_in b R = false /\ has_family_match R network_os b = false.
Proof.
  unfold line_outcome, has_family_match. rewrite existsb_find.
  destruct (py_in b R); [split; [discriminate | intros [? _]; discriminate]|].
  destruct (find _ R); split; try tauto; try discriminate.
  intros [_ ?]; discriminate.
Qed.

Lemma line_outcome_different (b r : value) :
  line_outcome R network_os b = Different r
  <-> py_in b R = false
      /\ find (fun x => _is_similar_config b x network_os) R = Some r.
Proof.
  unfold line_outcome.
  destruct (py_in b R); [split; [discriminate | intros [? _]; discriminate]|].
  destruct (find _ R); split; try congruence.
  - intros H. injection H as ->. auto.
  - intros [_ H]. congruence.
  - intros [_ H]. discriminate.
Qed.

Lemma flat_missing_filter (bs : list value) :
  flat_map (line_missing R network_os) bs
  = filter (fun b => negb (py_in b R)
                     && negb (has_family_match R network_os b)) bs.
Proof.
  induction bs as [|b bs IH]; simpl; auto. rewrite IH.
  unfold line_missing.
  destruct (line_outcome R network_os b) as [|r|] eqn:E.
  - apply line_outcome_exact in E. apply py_in_In in E. now rewrite E.
  - apply line_outcome_different in E. destruct E as [E1 E2].
    unfold has_family_match. rewrite existsb_find, E1, E2. reflexivity.
  - apply line_outcome_missing in E. destruct E as [E1 E2].
    now rewrite E1, E2.
Qed.

Lemma flat_different_filter (bs : list value) :
  List.map baseline (flat_map (line_different R network_os) bs)
  = filter (fun b => negb (py_in b R) && has_family_match R network_os b) bs.
Proof.
  induction bs as [|b bs IH]; simpl; auto. rewrite map_app, IH.
  unfold line_different.
  destruct (line_outcome R network_os b) as [|r|] eqn:E.
  - apply line_outcome_exact in E. apply py_in_In in E. now rewrite E.
  - apply line_outcome_different in E. destruct E as [E1 E2].
    unfold has_family_match. rewrite existsb_find, E1, E2. reflexivity.
  - apply line_outcome_missing in E. destruct E as [E1 E2].
    now rewrite E1, E2.
Qed.

Lemma compare_has_differences (bs : list value) :
  has_differences (compare_with_baseline R bs network_os)
  = truthy (missing_configs (compare_with_baseline R bs network_os))
    || truthy (different_configs (compare_with_baseline R bs network_os)).
Proof.
  unfold compare_with_baseline. rewrite !or_empty, baseline_loop. reflexivity.
Qed.

Lemma generate_summary_spec {A B C} (missing : list A) (extra : list B)
    (different : list C) :
  _generate_summary missing extra different
  = summary_spec (length missing) (length different).
Proof.
  unfold _generate_summary, summary_spec, missing_clause, found_clause.
  destruct missing, different; reflexivity.
Qed.

Lemma summary_spec_matches (n m : nat) :
  summary_spec n m = lit "Configuration matches baseline"
  <-> n = 0 /\ m = 0.
Proof.
  split.
  - intros H. apply (f_equal (hd 0%N)) in H.
    destruct n, m; auto; exfalso; revert H;
      unfold summary_spec, missing_clause, found_clause;
      vm_compute; discriminate.
  - intros [-> ->]. reflexivity.
Qed.

Lemma flat_map_nil_iff {A B} (f : A -> list B) (l : list A) :
  flat_map f l = [] <-> forall x, In x l -> f x = [].
Proof.
  induction l as [|x l IH]; simpl.
  - split; auto. intros _ x [].
  - split.
    + intros H. apply app_eq_nil in H. destruct H as [H1 H2].
      intros y [<-|Hy]; auto. now apply IH.
    + intros H. rewrite (H x) by now left. simpl. apply IH.
      intros y Hy. apply H. now right.
Qed.

End ComparatorMore.

(** X1: a comparison reports no difference exactly when every baseline line
    is one of the running lines. *)
Theorem no_differences_iff_baseline_included
    (running_config_lines baseline_lines : list value) (network_os : str) :
  has_differences
    (compare_with_baseline running_config_lines baseline_lines network_os)
  = false
  <-> (forall b, In b baseline_lines -> In b running_config_lines).
Proof.
  rewrite compare_has_differences, orb_false_iff, !truthy_false.
  rewrite compare_missing, compare_different, !flat_map_nil_iff.
  split.
  - intros [Hm Hd] b Hb. specialize (Hm b Hb). specialize (Hd b Hb).
    apply line_outcome_exact with (network_os := network_os).
    unfold line_missing in Hm. unfold line_different in Hd.
    destruct (line_outcome running_config_lines network_os b);
      auto; discriminate.
  - intros H. split; intros b Hb; apply H in Hb;
      apply line_outcome_exact with (network_os := network_os) in Hb;
      unfold line_missing, line_different; now rewrite Hb.
Qed.

(** X2: the summary is [Configuration matches baseline] exactly when
    [has_differences] is false. *)
Theorem summary_matches_iff_no_differences
    (running_config_lines baseline_lines : list value) (network_os : str) :
  summary
    (compare_with_baseline running_config_lines baseline_lines network_os)
  = lit "Configuration matches baseline"
  <-> has_differences
        (compare_with_baseline running_config_lines baseline_lines network_os)
      = false.
Proof.
  rewrite compare_summary, generate_summary_spec, summary_spec_matches.
  rewrite compare_has_differences, orb_false_iff, !truthy_false.
  rewrite !length_zero_iff_nil. tauto.
Qed.

(** X3: [missing_configs] is the baseline filtered, in its order, to the
    lines that are not among the running lines and have no running line of
    their family; the baselines of [different_configs] are, in order, the
    lines that are not among the running lines and have one. *)
Theorem outputs_are_baseline_filtered
    (running_config_lines baseline_lines : list value) (network_os : str) :
  let res :=
    compare_with_baseline running_config_lines baseline_lines network_os in
  missing_configs res
  = filter (fun b => negb (py_in b running_config_lines)
                     && negb (existsb
                                (fun r => _is_similar_config b r network_os)
                                running_config_lines))
           baseline_lines
  /\ List.map baseline (different_configs res)
     = filter (fun b => negb (py_in b running_config_lines)
                        && existsb
                             (fun r => _is_similar_config b r network_os)
                             running_config_lines)
              baseline_lines.
Proof.
  intros res. subst res. rewrite compare_missing, compare_different.
  split; [apply flat_missing_filter | apply flat_different_filter].
Qed.

(** X4: in every pair of [different_configs] the baseline is a baseline line
    that is not among the running lines, and the running value is the first
    running line of its family: it is a running line, of the same family,
    different from the baseline. *)
Theorem different_pair_is_first_family_match
    (running_config_lines baseline_lines : list value) (network_os : str)
    (e : diff_entry) :
  In e (different_configs
          (compare_with_baseline running_config_lines baseline_lines
                                 network_os)) ->
  In (baseline e) baseline_lines
  /\ ~ In (baseline e) running_config_lines
  /\ find (fun r => _is_similar_config (baseline e) r network_os)
          running_config_lines = Some (running e)
  /\ In (running e) running_config_lines
  /\ _is_similar_config (baseline e) (running e) network_os = true
  /\ baseline e <> running e.
Proof.
  rewrite compare_different. intros H. apply in_flat_map in H.
  destruct H as [b [Hb H]]. unfold line_different in H.
  destruct (line_outcome running_config_lines network_os b) as [|r|] eqn:E;
    try contradiction.
  destruct H as [<-|[]]. simpl.
  apply line_outcome_different in E. destruct E as [E1 E2].
  apply py_in_not_In in E1. pose proof (find_some _ _ E2) as [Hr Hs].
  repeat split; auto. intros ->. contradiction.
Qed.

(** X5: without running lines every baseline line is missing and no pair is
    recorded; without baseline lines nothing is reported. *)
Theorem compare_with_empty_side (lines : list value) (network_os : str) :
  (let res := compare_with_baseline [] lines network_os in
   missing_configs res = lines
   /\ different_configs res = []
   /\ has_differences res = truthy lines)
  /\ (let res := compare_with_baseline lines [] network_os in
      missing_configs res = []
      /\ different_configs res = []
      /\ has_differences res = false
      /\ summary res = lit "Configuration matches baseline").
Proof.
  split.
  - cbv zeta.
    assert (Hm : missing_configs (compare_with_baseline [] lines network_os)
                 = lines).
    { rewrite compare_missing. induction lines as [|b bs IH]; simpl; auto.
      now rewrite IH. }
    assert (Hd : different_configs (compare_with_baseline [] lines network_os)
                 = []).
    { rewrite compare_different. apply flat_map_nil_iff. reflexivity. }
    rewrite compare_has_differences, Hm, Hd, orb_false_r. auto.
  - cbv zeta. unfold compare_with_baseline. rewrite !or_empty.
    repeat split.
Qed.

Lemma different_pair_is_first_family_match_witness :
  find (fun r => _is_similar_config snmp_public r ios)
       [tacacs_host; snmp_private] = Some snmp_private
  /\ snmp_public <> snmp_private.
Proof.
  assert (H : In {| baseline := snmp_public; running := snmp_private |}
                (different_configs
                   (compare_with_baseline [tacacs_host; snmp_private]
                                          [snmp_public] ios))).
  { vm_compute. left. reflexivity. }
  destruct (different_pair_is_first_family_match _ _ _ _ H)
    as [_ [_ [Hf [_ [_ Hne]]]]].
  split; [exact Hf | exact Hne].
Defined.

(* ================================================================== *)
(** ** Further properties of the family match *)
(* ================================================================== *)

Section FamilyMatchMore.

Variable network_os : str.

Lemma str_eqb_sym (a b : str) : str_eqb a b = str_eqb b a.
Proof.
  destruct (str_eqb b a) eqn:E.
  - apply str_eqb_eq in E. subst. apply str_eqb_refl.
  - apply str_eqb_neq in E. apply str_eqb_neq. congruence.
Qed.

(** A line that is not a string is similar to nothing. *)
Lemma is_similar_non_str_l (b r : value) :
  is_str b = false -> _is_similar_config b r network_os = false.
Proof. destruct b; simpl; [discriminate| |]; reflexivity. Qed.

Lemma is_similar_non_str_r (b r : value) :
  is_str r = false -> _is_similar_config b r network_os = false.
Proof.
  destruct r; simpl; [discriminate| |]; intros _;
    destruct b as [s| |]; try reflexivity;
    unfold _is_similar_config, _is_similar_config_try; simpl;
    now destruct (split_ws s).
Qed.

Lemma is_similar_true_str (b r : value) :
  _is_similar_config b r network_os = true ->
  exists s t, b = VStr s /\ r = VStr t /\ leading_token s = leading_token t.
Proof.
  intros H. destruct b as [s| |].
  2,3: rewrite is_similar_non_str_l in H by reflexivity; discriminate.
  destruct r as [t| |].
  2,3: rewrite is_similar_non_str_r in H by reflexivity; discriminate.
  rewrite is_similar_str in H. apply str_eqb_eq in H. eauto.
Qed.

End FamilyMatchMore.

(** X6: the family match is symmetric and transitive on all lines and
    reflexive exactly on strings: a line that is not a string is not similar
    even to itself. *)
Theorem is_similar_config_partial_equivalence (network_os : str) :
  (forall b r,
      _is_similar_config b r network_os = _is_similar_config r b network_os)
  /\ (forall a b c,
         _is_similar_config a b network_os = true ->
         _is_similar_config b c network_os = true ->
         _is_similar_config a c network_os = true)
  /\ (forall b, _is_similar_config b b network_os = is_str b).
Proof.
  split; [|split].
  - intros b r. destruct (is_str b) eqn:Eb.
    + destruct (is_str r) eqn:Er.
      * destruct b as [s| |], r as [t| |]; try discriminate.
        rewrite !is_similar_str. apply str_eqb_sym.
      * now rewrite is_similar_non_str_r, is_similar_non_str_l.
    + now rewrite is_similar_non_str_l, is_similar_non_str_r.
  - intros a b c Hab Hbc.
    apply is_similar_true_str in Hab. destruct Hab as [s [t [-> [-> E1]]]].
    apply is_similar_true_str in Hbc. destruct Hbc as [t' [u [Et [-> E2]]]].
    injection Et as <-. rewrite is_similar_str. apply str_eqb_eq. congruence.
  - intros b. destruct b as [s| |]; try reflexivity.
    rewrite is_similar_str. apply str_eqb_refl.
Qed.

Lemma is_similar_config_partial_equivalence_witness :
  _is_similar_config snmp_public snmp_location ios = true.
Proof.
  apply (proj1 (proj2 (is_similar_config_partial_equivalence ios))
           snmp_public snmp_private snmp_location); reflexivity.
Defined.

(** X7: a baseline line that is not a string and is not among the running
    lines is always reported missing, whatever the running lines are. *)
Theorem non_string_baseline_line_is_missing
    (running_config_lines baseline_lines : list value) (network_os : str)
    (b : value) :
  is_str b = false ->
  In b baseline_lines ->
  ~ In b running_config_lines ->
  In b (missing_configs
          (compare_with_baseline running_config_lines baseline_lines
                                 network_os)).
Proof.
  intros Hs Hb Hn. rewrite compare_missing. apply in_flat_missing.
  split; auto. apply line_outcome_missing. split.
  - now apply py_in_not_In.
  - unfold has_family_match. apply not_true_is_false. intros E.
    apply existsb_exists in E. destruct E as [r [_ E]].
    rewrite is_similar_non_str_l in E by assumption. discriminate.
Qed.

Lemma non_string_baseline_line_is_missing_witness :
  In (VInt 5)
     (missing_configs
        (compare_with_baseline [VStr (lit "5"); snmp_private]
                               [snmp_public; VInt 5] ios)).
Proof.
  apply non_string_baseline_line_is_missing.
  - reflexivity.
  - simpl. auto.
  - simpl. intuition discriminate.
Defined.

(* ================================================================== *)
(** ** Further properties of the normalizer *)
(* ================================================================== *)

Section NormalizerMore.

Lemma lstrip_suffix (s : str) : exists pre, s = pre ++ lstrip s.
Proof.
  induction s as [|c t [pre IH]]; simpl.
  - now exists [].
  - destruct (is_space c).
    + exists (c :: pre). simpl. now f_equal.
    + now exists [].
Qed.

Lemma strip_substring (s : str) : substring_of (strip s) s.
Proof.
  unfold strip, rstrip.
  destruct (lstrip_suffix s) as [pre Hpre].
  destruct (lstrip_suffix (rev (lstrip s))) as [q Hq].
  apply (f_equal (@rev char)) in Hq.
  rewrite rev_involutive, rev_app_distr in Hq.
  exists pre, (rev q). now rewrite <- Hq.
Qed.

Lemma strip_fixed_ends (l : str) :
  strip l = l ->
  (forall c t, l = c :: t -> is_space c = false)
  /\ (forall t c, l = t ++ [c] -> is_space c = false).
Proof.
  intros H. split.
  - intros c t ->.
    assert (Hl : lstrip (c :: t) = c :: t).
    { rewrite <- H at 1. unfold strip.
      rewrite lstrip_rstrip_fixed by apply lstrip_idem. exact H. }
    now apply lstrip_fixed in Hl.
  - intros t c ->.
    assert (Hr : rstrip (t ++ [c]) = t ++ [c]).
    { rewrite <- H at 1. unfold strip. rewrite rstrip_idem. exact H. }
    unfold rstrip in Hr. apply (f_equal (@rev char)) in Hr.
    rewrite rev_involutive, rev_app_distr in Hr.
    change (rev [c] ++ rev t) with (c :: rev t) in Hr.
    now apply lstrip_fixed in Hr.
Qed.

End NormalizerMore.

(** X8: every line [normalize_config] returns is not empty, starts with
    neither [!] nor [#], has no whitespace at either end, holds no newline
    and occurs verbatim in the text. *)
Theorem normalized_lines_are_clean (config network_os l : str) :
  In l (normalize_config config network_os) ->
  l <> []
  /\ startswith l (lit "!") = false
  /\ startswith l (lit "#") = false
  /\ (forall c t, l = c :: t -> is_space c = false)
  /\ (forall t c, l = t ++ [c] -> is_space c = false)
  /\ ~ In nl l
  /\ substring_of l config.
Proof.
  intros H. pose proof (normalized_line _ _ _ H) as [Hk [Hs Hn]].
  destruct (strip_fixed_ends Hs) as [Hh Ht].
  rewrite normalize_config_spec in H. unfold normalize_spec in H.
  apply filter_In in H. destruct H as [H _].
  apply in_map_iff in H. destruct H as [l0 [El0 Hl0]].
  assert (Hsub : substring_of l config).
  { rewrite <- El0. apply substring_of_trans with (b := l0).
    - apply strip_substring.
    - now apply split_on_substring with (sep := nl). }
  clear El0 Hl0.
  destruct l as [|c t]; [discriminate|].
  change (lit "!") with [33%N]. change (lit "#") with [35%N].
  rewrite !startswith_char. simpl in Hk.
  apply andb_true_iff in Hk. destruct Hk as [H1 H2].
  apply negb_true_iff in H1, H2.
  rewrite N.eqb_sym in H1. rewrite N.eqb_sym in H2.
  repeat split; auto. discriminate.
Qed.

Lemma normalized_lines_are_clean_witness :
  substring_of (lit "a b")
    (join [nl] [lit "  a b "; lit "!c"; lit ""; lit "#d"; lit " e"]).
Proof.
  apply (normalized_lines_are_clean
           (join [nl] [lit "  a b "; lit "!c"; lit ""; lit "#d"; lit " e"])
           ios (lit "a b")).
  vm_compute. left. reflexivity.
Defined.

(** X9: normalizing two texts joined by a newline gives the lines of the
    first followed by the lines of the second. *)
Theorem normalize_config_of_joined_texts (a b network_os : str) :
  normalize_config (a ++ nl :: b) network_os
  = normalize_config a network_os ++ normalize_config b network_os.
Proof.
  rewrite !normalize_config_spec. unfold normalize_spec.
  now rewrite split_on_app, map_app, filter_app.
Qed.

(** X10: indentation and trailing blanks do not matter: trimming the lines
    of a text beforehand does not change what [normalize_config] returns. *)
Theorem normalize_config_ignores_surrounding_blanks
    (ls : list str) (network_os : str) :
  (forall l, In l ls -> ~ In nl l) ->
  normalize_config (join [nl] (List.map strip ls)) network_os
  = normalize_config (join [nl] ls) network_os.
Proof.
  intros Hfree. destruct ls as [|l0 ls']; [reflexivity|].
  rewrite !normalize_config_spec. unfold normalize_spec.
  rewrite !split_on_join_free; try discriminate; auto.
  - rewrite map_map. f_equal. apply map_ext. intros l. apply strip_idem.
  - intros l Hl Hin. apply in_map_iff in Hl. destruct Hl as [l' [<- Hl']].
    apply strip_In in Hin. now apply (Hfree l').
Qed.

Lemma normalize_config_ignores_surrounding_blanks_witness :
  normalize_config (join [nl] [lit "a b"; lit "e"]) ios
  = normalize_config (join [nl] [lit "  a b "; lit " e"]) ios.
Proof.
  apply (normalize_config_ignores_surrounding_blanks
           [lit "  a b "; lit " e"] ios).
  intros l [<-|[<-|[]]]; vm_compute; intuition discriminate.
Defined.

(* ================================================================== *)
(** ** Further properties of the extractor *)
(* ================================================================== *)

Section ExtractorMore.

Lemma startswith_app (s p : str) :
  startswith s p = true <-> exists q, s = p ++ q.
Proof.
  revert s. induction p as [|a p IH]; intros s.
  - destruct s; simpl; split; eauto.
  - destruct s as [|c t]; cbn [startswith].
    + split; [discriminate|]. intros [q H]. discriminate.
    + rewrite andb_true_iff, N.eqb_eq, IH. split.
      * intros [-> [q ->]]. now exists q.
      * intros [q H]. injection H as -> ->. split; eauto.
Qed.

Lemma strip_prefix_startswith (p s : str) :
  startswith s p = match strip_prefix p s with Some _ => true | None => false end.
Proof.
  revert s. induction p as [|a p IH]; intros s.
  - now destruct s.
  - destruct s as [|c t]; cbn [startswith strip_prefix]; auto.
    destruct (N.eqb a c); cbn [andb]; auto.
Qed.

Lemma star_greedy_any (s : str) :
  star_loop true CAny (fun s' => Some s') s = Some [].
Proof. induction s as [|c t IH]; simpl; auto. now rewrite IH. Qed.

(** Under [re.DOTALL] the greedy [.*] runs to the end of the text. *)
Lemma match_here_greedy (kw s : str) :
  match_here (Seq (Lit kw) (Star true CAny)) s
  = if startswith s kw then Some s else None.
Proof.
  rewrite strip_prefix_startswith. unfold match_here. simpl.
  destruct (strip_prefix kw s) as [s1|]; auto.
  rewrite star_greedy_any. simpl. now rewrite Nat.sub_0_r, firstn_all.
Qed.

Lemma findall_from_skip_all (r : regex) (t : str) :
  findall_from r (length t) t = findall_from r 0 [].
Proof. induction t as [|c t IH]; simpl; auto. Qed.

Lemma substring_of_nil_l (kw : str) : kw <> [] -> ~ substring_of kw [].
Proof.
  intros Hkw [pre [post H]]. symmetry in H.
  apply app_eq_nil in H. destruct H as [_ H].
  apply app_eq_nil in H. tauto.
Qed.

Lemma findall_greedy (kw : str) (text : str) :
  kw <> [] ->
  let pattern := Seq (Lit kw) (Star true CAny) in
  (~ substring_of kw text /\ findall pattern text = [])
  \/ (exists pre m,
         text = pre ++ m /\ startswith m kw = true
         /\ findall pattern text = [m]
         /\ forall pre' m', text = pre' ++ m' -> startswith m' kw = true ->
                            length pre <= length pre').
Proof.
  intros Hkw pattern. subst pattern. unfold findall.
  assert (Hend : findall_from (Seq (Lit kw) (Star true CAny)) 0 [] = []).
  { simpl. rewrite match_here_greedy. destruct kw; [congruence|reflexivity]. }
  induction text as [|c t IH].
  - left. split; auto using substring_of_nil_l.
  - cbn [findall_from]. rewrite match_here_greedy.
    destruct (startswith (c :: t) kw) eqn:E.
    + right. exists [], (c :: t). repeat split; auto.
      * cbn [length pred]. now rewrite findall_from_skip_all, Hend.
      * intros; simpl; lia.
    + destruct IH as [[Hn Hf]|[pre [m [-> [Hs [Hf Hleft]]]]]].
      * left. split; auto. intros [pre [post H]].
        destruct pre as [|a pre]; simpl in H.
        -- assert (Hs : startswith (c :: t) kw = true)
             by (apply startswith_app; eauto).
           congruence.
        -- injection H as -> ->. apply Hn. now exists pre, post.
      * right. exists (c :: pre), m. repeat split; auto.
        intros pre' m' H Hs'. destruct pre' as [|a pre']; simpl in H.
        -- subst m'. congruence.
        -- injection H as -> H. simpl. apply Hleft in H; auto. lia.
Qed.

(** The lazy [.*?] stops at the first place where what follows succeeds. *)
Lemma star_lazy_first (k : str -> option str) (s e : str) :
  star_loop false CAny k s = Some e ->
  exists body rest,
    s = body ++ rest /\ k rest = Some e
    /\ forall b1 b2, body = b1 ++ b2 -> b2 <> [] -> k (b2 ++ rest) = None.
Proof.
  induction s as [|c t IH]; simpl; intros H.
  - exists [], []. repeat split; auto.
    intros b1 b2 Hb Hne. symmetry in Hb. apply app_eq_nil in Hb. tauto.
  - destruct (k (c :: t)) as [e'|] eqn:E.
    + exists [], (c :: t). repeat split; [congruence|].
      intros b1 b2 Hb Hne. symmetry in Hb. apply app_eq_nil in Hb. tauto.
    + destruct (IH H) as [body [rest [-> [Hk Hmin]]]].
      exists (c :: body), rest. repeat split; auto.
      intros b1 b2 Hb Hne. destruct b1 as [|a b1]; simpl in Hb.
      * subst b2. exact E.
      * injection Hb as -> Hb. eauto.
Qed.

Lemma look_continuation (r : regex) (x : str) :
  run (Look r) x (fun s' => Some s')
  = if at_boundary r x then Some x else None.
Proof.
  unfold at_boundary. simpl. now destruct (run r x (fun s' => Some s')).
Qed.

Lemma match_here_lazy (kw : str) (look : regex) (s m : str) :
  match_here (Seq (Lit kw) (Seq (Star false CAny) (Look look))) s = Some m ->
  exists body rest,
    m = kw ++ body /\ s = m ++ rest
    /\ at_boundary look rest = true
    /\ forall b1 b2, body = b1 ++ b2 -> b2 <> [] ->
                     at_boundary look (b2 ++ rest) = false.
Proof.
  unfold match_here.
  destruct (run _ s (fun s' => Some s')) as [e|] eqn:E; [|discriminate].
  intros H. injection H as <-.
  change (run (Seq (Lit kw) (Seq (Star false CAny) (Look look))) s
              (fun s' => Some s'))
    with (match strip_prefix kw s with
          | Some s1 =>
              star_loop false CAny
                (fun x => run (Look look) x (fun s' => Some s')) s1
          | None => None
          end) in E.
  destruct (strip_prefix kw s) as [s1|] eqn:Ep; [|discriminate].
  apply strip_prefix_app in Ep. subst s.
  apply star_lazy_first in E. destruct E as [body [rest [-> [Hk Hmin]]]].
  cbv beta in Hk. rewrite look_continuation in Hk.
  destruct (at_boundary look rest) eqn:Eb; [|discriminate].
  injection Hk as <-.
  exists body, rest.
  assert (Hm : firstn (length (kw ++ body ++ rest) - length rest)
                      (kw ++ body ++ rest) = kw ++ body).
  { rewrite app_assoc, length_app, Nat.add_sub.
    now rewrite firstn_app, Nat.sub_diag, firstn_all, firstn_O, app_nil_r. }
  rewrite Hm. repeat split; auto.
  - now rewrite <- app_assoc.
  - intros b1 b2 Hb Hne. specialize (Hmin b1 b2 Hb Hne).
    cbv beta in Hmin. rewrite look_continuation in Hmin.
    now destruct (at_boundary look (b2 ++ rest)).
Qed.

(** Every text [findall] returns is a match at some position of the text. *)
Lemma findall_from_origin (r : regex) (s : str) :
  forall (skip : nat) (m : str),
    In m (findall_from r skip s) ->
    exists pre suf, s = pre ++ suf /\ match_here r suf = Some m.
Proof.
  induction s as [|c t IH]; intros skip m H.
  - destruct skip; simpl in H; [|contradiction].
    destruct (match_here r []) as [m'|] eqn:E; [|contradiction].
    destruct H as [<-|[]]. now exists [], [].
  - assert (Hrec : forall n, In m (findall_from r n t) ->
                     exists pre suf, c :: t = pre ++ suf
                                     /\ match_here r suf = Some m).
    { intros n Hn. destruct (IH _ _ Hn) as [pre [suf [-> Hm]]].
      now exists (c :: pre), suf. }
    destruct skip; simpl in H; eauto.
    destruct (match_here r (c :: t)) as [m'|] eqn:E; eauto.
    destruct H as [<-|H]; eauto. now exists [], (c :: t).
Qed.

Lemma scattered_cons (ms : list str) (c : char) (s : str) :
  scattered ms s -> scattered ms (c :: s).
Proof.
  destruct ms as [|m ms]; simpl; auto.
  intros [pre [rest [-> H]]]. now exists (c :: pre), rest.
Qed.

Lemma findall_from_scattered (r : regex) (s : str) :
  forall skip, scattered (findall_from r skip s) (skipn skip s).
Proof.
  induction s as [|c t IH]; intros skip.
  - destruct skip; simpl; auto.
    destruct (match_here r []) as [m|] eqn:E; simpl; auto.
    destruct (match_here_prefix _ _ E) as [q Hq].
    symmetry in Hq. apply app_eq_nil in Hq. destruct Hq as [-> ->].
    now exists [], [].
  - destruct skip as [|n]; [|apply IH].
    cbn [findall_from skipn].
    destruct (match_here r (c :: t)) as [m|] eqn:E.
    + destruct (match_here_prefix _ _ E) as [q Hq].
      cbn [scattered]. exists [], q. split; [exact Hq|].
      destruct m as [|a m']; simpl in Hq.
      * subst q. apply scattered_cons. apply (IH 0).
      * injection Hq as <- ->. cbn [length pred].
        specialize (IH (length m')).
        now rewrite skipn_app, Nat.sub_diag, skipn_all in IH.
    + apply scattered_cons. apply (IH 0).
Qed.

Lemma at_boundary_alt (r1 r2 : regex) (s : str) :
  at_boundary (Alt r1 r2) s = at_boundary r1 s || at_boundary r2 s.
Proof.
  unfold at_boundary. simpl.
  now destruct (run r1 s (fun s' => Some s')).
Qed.

Lemma at_boundary_nl_then (r : regex) (s : str) :
  at_boundary (nl_then r) s
  = match s with
    | c :: s' => N.eqb nl c && at_boundary r s'
    | [] => false
    end.
Proof.
  unfold at_boundary, nl_then. cbn [run cset_mem].
  destruct s as [|c s']; auto. now destruct (N.eqb nl c).
Qed.

Lemma at_boundary_a_z (s : str) :
  at_boundary a_z s = match s with c :: _ => is_lower c | [] => false end.
Proof.
  unfold at_boundary, a_z, is_lower. cbn [run cset_mem].
  destruct s as [|c s']; auto.
  now destruct (N.leb 97 c && N.leb c 122).
Qed.

Lemma at_boundary_lit (p s : str) :
  at_boundary (Lit p) s = startswith s p.
Proof.
  rewrite strip_prefix_startswith. unfold at_boundary. cbn [run].
  now destruct (strip_prefix p s).
Qed.

Lemma at_boundary_endz (s : str) :
  at_boundary EndZ s = match s with [] => true | _ :: _ => false end.
Proof. now destruct s. Qed.

End ExtractorMore.

(** X11: a pattern [kw.*] of the tables, matched with [re.DOTALL], has no
    match when the keyword does not occur in the text, and otherwise exactly
    one: the text from the leftmost occurrence of the keyword to its very
    end. *)
Theorem greedy_pattern_takes_rest_of_text (kw : string) (text : str) :
  lit kw <> [] ->
  (~ substring_of (lit kw) text /\ findall (greedy_tail kw) text = [])
  \/ (exists pre m,
         text = pre ++ m
         /\ startswith m (lit kw) = true
         /\ findall (greedy_tail kw) text = [m]
         /\ forall pre' m',
              text = pre' ++ m' -> startswith m' (lit kw) = true ->
              length pre <= length pre').
Proof. intros Hkw. now apply findall_greedy. Qed.

Lemma greedy_pattern_takes_rest_of_text_witness :
  exists pre m,
    join [nl] [lit "hostname r1"; lit "snmp-server community public RO";
               lit "ntp server x"] = pre ++ m
    /\ findall (greedy_tail "snmp-server community")
               (join [nl] [lit "hostname r1";
                           lit "snmp-server community public RO";
                           lit "ntp server x"]) = [m].
Proof.
  assert (Hkw : lit "snmp-server community" <> []) by discriminate.
  destruct (@greedy_pattern_takes_rest_of_text
              "snmp-server community"
              (join [nl] [lit "hostname r1";
                          lit "snmp-server community public RO";
                          lit "ntp server x"]) Hkw)
    as [[_ H]|[pre [m [H1 [_ [H3 _]]]]]].
  - vm_compute in H. discriminate.
  - exists pre, m. split; assumption.
Defined.

(** X12: every match of a pattern [kw.*?(?=a1|a2|a3)] is the keyword
    followed by a body, stands in the text right in front of a place the
    lookahead accepts, and is the shortest such: the lookahead accepts at no
    earlier place of the body. *)
Theorem lazy_pattern_stops_at_first_boundary
    (kw : string) (a1 a2 a3 : regex) (text m : str) :
  In m (findall (lazy_until kw a1 a2 a3) text) ->
  exists pre body rest,
    text = pre ++ m ++ rest
    /\ m = lit kw ++ body
    /\ at_boundary (lookahead_of a1 a2 a3) rest = true
    /\ forall b1 b2, body = b1 ++ b2 -> b2 <> [] ->
                     at_boundary (lookahead_of a1 a2 a3) (b2 ++ rest) = false.
Proof.
  intros H. apply findall_from_origin in H.
  destruct H as [pre [suf [-> Hm]]].
  apply match_here_lazy in Hm.
  destruct Hm as [body [rest [Em [-> [Hb Hmin]]]]].
  exists pre, body, rest. auto.
Qed.

Lemma lazy_pattern_stops_at_first_boundary_witness :
  exists pre body rest,
    join [nl] [lit "line vty 0 4"; lit " login"; lit "ntp server x"]
    = pre ++ join [nl] [lit "line vty 0 4"; lit " login"] ++ rest
    /\ join [nl] [lit "line vty 0 4"; lit " login"] = lit "line vty" ++ body
    /\ at_boundary
         (lookahead_of (nl_then (Lit (lit "line"))) (nl_then a_z) EndZ) rest
       = true
    /\ forall b1 b2, body = b1 ++ b2 -> b2 <> [] ->
         at_boundary
           (lookahead_of (nl_then (Lit (lit "line"))) (nl_then a_z) EndZ)
           (b2 ++ rest) = false.
Proof.
  apply (lazy_pattern_stops_at_first_boundary
           "line vty" (nl_then (Lit (lit "line"))) (nl_then a_z) EndZ
           (join [nl] [lit "line vty 0 4"; lit " login"; lit "ntp server x"])).
  vm_compute. left. reflexivity.
Defined.

Section Boundaries.

Lemma lookahead_with_marker (marker : char) (rest : str) :
  at_boundary (lookahead_of (nl_then a_z) (nl_then (Lit [marker])) EndZ) rest
  = top_level_ahead (N.eqb marker) rest.
Proof.
  unfold lookahead_of.
  rewrite !at_boundary_alt, !at_boundary_nl_then, at_boundary_endz.
  destruct rest as [|c [|d t]]; cbn [top_level_ahead].
  - reflexivity.
  - rewrite at_boundary_a_z, at_boundary_lit. cbn [startswith].
    now rewrite andb_false_r.
  - rewrite at_boundary_a_z, at_boundary_lit, startswith_char.
    destruct (N.eqb nl c), (is_lower d), (N.eqb marker d); reflexivity.
Qed.

Lemma lookahead_with_lower_keyword (a : char) (p : str) (rest : str) :
  is_lower a = true ->
  at_boundary (lookahead_of (nl_then (Lit (a :: p))) (nl_then a_z) EndZ) rest
  = top_level_ahead (fun _ => false) rest.
Proof.
  intros Ha. unfold lookahead_of.
  rewrite !at_boundary_alt, !at_boundary_nl_then, at_boundary_endz.
  destruct rest as [|c [|d t]]; cbn [top_level_ahead].
  - reflexivity.
  - rewrite at_boundary_a_z, at_boundary_lit. cbn [startswith].
    now rewrite andb_false_r.
  - rewrite at_boundary_a_z, at_boundary_lit.
    destruct (startswith (d :: t) (a :: p)) eqn:E.
    + cbn [startswith] in E. apply andb_true_iff in E. destruct E as [E _].
      apply N.eqb_eq in E. subst d. rewrite Ha.
      now destruct (N.eqb nl c).
    + now destruct (N.eqb nl c), (is_lower d).
Qed.

End Boundaries.

(** X13: for each lookahead of the tables, the places it accepts: the end of
    the text, or a newline followed by a lowercase letter; for the banner and
    header patterns also a newline followed by [!], respectively [#].  The
    alternatives [\nline] and [\nuser-interface] add nothing to
    [\n[a-z]]. *)
Theorem table_lookaheads_accept_top_level_lines (rest : str) :
  at_boundary (lookahead_of (nl_then a_z) (nl_then (Lit (lit "!"))) EndZ) rest
  = top_level_ahead (N.eqb 33) rest
  /\ at_boundary (lookahead_of (nl_then a_z) (nl_then (Lit (lit "#"))) EndZ) rest
     = top_level_ahead (N.eqb 35) rest
  /\ at_boundary
       (lookahead_of (nl_then (Lit (lit "line"))) (nl_then a_z) EndZ) rest
     = top_level_ahead (fun _ => false) rest
  /\ at_boundary
       (lookahead_of (nl_then (Lit (lit "user-interface"))) (nl_then a_z) EndZ)
       rest
     = top_level_ahead (fun _ => false) rest.
Proof.
  split; [|split; [|split]].
  - apply (lookahead_with_marker 33%N).
  - apply (lookahead_with_marker 35%N).
  - now apply (lookahead_with_lower_keyword 108%N (lit "ine")).
  - now apply (lookahead_with_lower_keyword 117%N (lit "ser-interface")).
Qed.

Section Keywords.

Variable config : str.

Lemma match_here_keyword (kw : str) (r : regex) (s m : str) :
  match_here (Seq (Lit kw) r) s = Some m -> exists body, m = kw ++ body.
Proof.
  unfold match_here. simpl.
  destruct (strip_prefix kw s) as [s1|] eqn:E; [|discriminate].
  apply strip_prefix_app in E. subst s.
  destruct (run r s1 (fun s' => Some s')) as [rest|] eqn:Er; [|discriminate].
  destruct (run_suffix _ _ _ Er) as [p [s' [-> Hs']]]. injection Hs' as ->.
  intros H. injection H as <-. exists p.
  rewrite !app_assoc, length_app, Nat.add_sub.
  now rewrite firstn_app, Nat.sub_diag, firstn_all, firstn_O, app_nil_r.
Qed.

Lemma extract_loop_origin (patterns : list regex) :
  forall (acc : list str) (m : str),
    In m (fold_left (extract_step config) patterns acc) ->
    In m acc \/ exists p, In p patterns /\ In m (findall p config).
Proof.
  induction patterns as [|p ps IH]; intros acc m H; simpl in H; auto.
  apply IH in H. destruct H as [H|[q [Hq H]]].
  - unfold extract_step in H.
    destruct (truthy (findall p config)); auto.
    apply in_app_or in H. destruct H as [H|H]; auto.
    right. exists p. split; auto. now left.
  - right. exists q. split; auto. now right.
Qed.

Lemma join_head (sep x : str) (rest : list str) :
  exists q, join sep (x :: rest) = x ++ q.
Proof.
  destruct rest as [|y rest'].
  - exists []. simpl. now rewrite app_nil_r.
  - now exists (sep ++ join sep (y :: rest')).
Qed.

Lemma extracted_starts_with_keyword (patterns : list regex) :
  (forall p, In p patterns -> exists kw r, p = Seq (Lit kw) r) ->
  let out := join [nl] (fold_left (extract_step config) patterns []) in
  out = []
  \/ exists p, In p patterns
               /\ startswith out (keyword_of p) = true
               /\ substring_of (keyword_of p) config.
Proof.
  intros Hform out. subst out.
  destruct (fold_left (extract_step config) patterns []) as [|m ms] eqn:E;
    [now left|right].
  assert (Hm : In m (fold_left (extract_step config) patterns []))
    by (rewrite E; now left).
  apply extract_loop_origin in Hm. destruct Hm as [[]|[p [Hp Hm]]].
  destruct (Hform p Hp) as [kw [r ->]].
  apply findall_from_origin in Hm. destruct Hm as [pre [suf [Hc Hm]]].
  pose proof (match_here_prefix _ _ Hm) as [post Hpost].
  apply match_here_keyword in Hm. destruct Hm as [body ->].
  exists (Seq (Lit kw) r). cbn [keyword_of]. repeat split; auto.
  - destruct (join_head [nl] (kw ++ body) ms) as [q ->].
    apply startswith_app. exists (body ++ q). now rewrite app_assoc.
  - exists pre, (body ++ post). rewrite Hc, Hpost.
    now rewrite <- !app_assoc.
Qed.

End Keywords.

Lemma table_patterns_open_with_keyword (p : regex) :
  In p (cisco_patterns ++ h3c_patterns ++ huawei_patterns) ->
  exists kw r, p = Seq (Lit kw) r.
Proof.
  intros H. simpl in H.
  repeat (destruct H as [<-|H]; [eexists; eexists; reflexivity|]).
  contradiction.
Qed.

(** X14: on a supported platform the extracted text is empty or opens with
    a keyword of the platform's table, a keyword that occurs in the
    configuration; so a configuration without any of these keywords gives
    the empty text. *)
Theorem extraction_opens_with_table_keyword (running_config network_os : str) :
  In network_os supported_platforms ->
  let out := extract_config_sections running_config network_os in
  out = lit ""
  \/ exists p, In p (patterns_for network_os)
               /\ startswith out (keyword_of p) = true
               /\ substring_of (keyword_of p) running_config.
Proof.
  intros Hos out.
  assert (Hout : out = if negb (truthy running_config) then lit ""
                       else join [nl] (fold_left (extract_step running_config)
                                                 (patterns_for network_os) [])).
  { subst out. unfold supported_platforms in Hos. simpl in Hos.
    repeat (destruct Hos as [<-|Hos]; [reflexivity|]). contradiction. }
  rewrite Hout. destruct (negb (truthy running_config)); [now left|].
  apply extracted_starts_with_keyword.
  intros p Hp. apply table_patterns_open_with_keyword.
  unfold patterns_for in Hp.
  destruct (existsb _ _); [|destruct (str_eqb _ _); [|destruct (str_eqb _ _)]];
    auto using in_or_app. contradiction.
Qed.

Lemma extraction_opens_with_table_keyword_witness :
  extract_config_sections (lit "hostname r1") (lit "comware") = lit ""
  \/ exists p, In p (patterns_for (lit "comware"))
               /\ startswith
                    (extract_config_sections (lit "hostname r1") (lit "comware"))
                    (keyword_of p) = true
               /\ substring_of (keyword_of p) (lit "hostname r1").
Proof.
  apply (@extraction_opens_with_table_keyword
           (lit "hostname r1") (lit "comware")).
  vm_compute. tauto.
Defined.

(** X15: the matches [re.findall] returns for a pattern occur in the text one
    after the other, from left to right, without overlapping. *)
Theorem findall_matches_do_not_overlap (pattern : regex) (text : str) :
  scattered (findall pattern text) text.
Proof. apply (findall_from_scattered pattern text 0). Qed.

Section Accounting.

Variable running_config_lines : list value.
Variable network_os : str.

Lemma flat_lengths (bs : list value) :
  length (flat_map (line_missing running_config_lines network_os) bs)
  + length (flat_map (line_different running_config_lines network_os) bs)
  = length (filter (fun b => negb (py_in b running_config_lines)) bs).
Proof.
  induction bs as [|b bs IH]; simpl; auto.
  rewrite !length_app. unfold line_missing at 1, line_different at 1.
  destruct (line_outcome running_config_lines network_os b) as [|r|] eqn:E.
  - apply line_outcome_exact in E. apply py_in_In in E. rewrite E.
    simpl. exact IH.
  - apply line_outcome_different in E. destruct E as [E _]. rewrite E.
    simpl. lia.
  - apply line_outcome_missing in E. destruct E as [E _]. rewrite E.
    simpl. lia.
Qed.

Lemma has_family_match_app (rs rs' : list value) (b : value) :
  has_family_match (rs ++ rs') network_os b
  = has_family_match rs network_os b || has_family_match rs' network_os b.
Proof. unfold has_family_match. apply existsb_app. Qed.

End Accounting.

(** X16: the two counts of the summary add up to the number of baseline
    lines that are not among the running lines. *)
Theorem reported_counts_add_up
    (running_config_lines baseline_lines : list value) (network_os : str) :
  let res :=
    compare_with_baseline running_config_lines baseline_lines network_os in
  length (missing_configs res) + length (different_configs res)
  = length (filter (fun b => negb (py_in b running_config_lines))
                   baseline_lines).
Proof.
  intros res. subst res. rewrite compare_missing, compare_different.
  apply flat_lengths.
Qed.

(** X17: more running lines never make a baseline line missing: a line
    missing against a longer running sequence is missing against every
    prefix of it. *)
Theorem missing_shrinks_as_running_grows
    (running_config_lines more_lines baseline_lines : list value)
    (network_os : str) (b : value) :
  In b (missing_configs
          (compare_with_baseline (running_config_lines ++ more_lines)
                                 baseline_lines network_os)) ->
  In b (missing_configs
          (compare_with_baseline running_config_lines baseline_lines
                                 network_os)).
Proof.
  rewrite !compare_missing, !in_flat_missing, !line_outcome_missing.
  rewrite has_family_match_app, orb_false_iff.
  intros [Hb [Hin [Hf _]]]. repeat split; auto.
  apply py_in_not_In. apply py_in_not_In in Hin.
  intros H. apply Hin. apply in_or_app. now left.
Qed.

Lemma missing_shrinks_as_running_grows_witness :
  In tacacs_host
     (missing_configs
        (compare_with_baseline [snmp_private] [snmp_public; tacacs_host] ios)).
Proof.
  apply (@missing_shrinks_as_running_grows
           [snmp_private] [snmp_location] [snmp_public; tacacs_host] ios
           tacacs_host).
  vm_compute. left. reflexivity.
Defined.
